(** * SANYAI backend (server/index.js): request orchestration

    A shallow embedding of the Express handlers of the chat backend and of
    the helpers they call.  The hosted services the handlers talk to (the
    Hugging Face inference router, SerpApi, Supabase, the js-tiktoken
    encoder) and the pieces of the JavaScript runtime whose result the code
    only consumes ([JSON.parse], [Date.now]) are fields of a record [world];
    every handler is a function of the world and of the store it threads. *)

From Stdlib Require Import String Ascii List ZArith QArith Lia Bool DecimalString.
Import ListNotations.
Open Scope string_scope.
Open Scope Z_scope.

(** ** JavaScript values and strings *)

Definition nl : string := String (ascii_of_nat 10) EmptyString.
Definition dq : string := String (ascii_of_nat 34) EmptyString.

Set Warnings "-register-all".

(** Values that [JSON.parse] can produce, and [undefined] for a property that
    is not there.  Numbers are only ever tested for truthiness here. *)
Inductive jsval : Type :=
| JUndefined
| JNull
| JBool (b : bool)
| JNum (n : Z)
| JStr (s : string)
| JArr (items : list jsval)
| JObj (fields : list (string * jsval)).

Definition nonempty (s : string) : bool :=
  match s with EmptyString => false | String _ _ => true end.

(** [!!v] *)
Definition truthy (v : jsval) : bool :=
  match v with
  | JUndefined | JNull => false
  | JBool b => b
  | JNum n => negb (n =? 0)
  | JStr s => nonempty s
  | JArr _ | JObj _ => true
  end.

(** [a || b] *)
Definition js_or (a b : jsval) : jsval := if truthy a then a else b.

Fixpoint assoc {A : Type} (k : string) (l : list (string * A)) : option A :=
  match l with
  | [] => None
  | (k', v) :: rest => if String.eqb k k' then Some v else assoc k rest
  end.

(** [v.k] for a key [k] that no built-in prototype defines: a [TypeError]
    ([None]) on [null] and [undefined], the own property of an object, and
    [undefined] everywhere else. *)
Definition get_prop (v : jsval) (k : string) : option jsval :=
  match v with
  | JUndefined | JNull => None
  | JObj fields =>
      Some (match assoc k fields with Some x => x | None => JUndefined end)
  | _ => Some JUndefined
  end.

(** A string field that may be missing: [None] is [undefined]. *)
Definition present (o : option string) : bool :=
  match o with Some s => nonempty s | None => false end.

(** [a || b] on optional strings. *)
Definition or_else (a b : option string) : option string :=
  if present a then a else b.

(** [`${v}`] for an optional string. *)
Definition show (o : option string) : string :=
  match o with Some s => s | None => "undefined" end.

(** [String(n)] for an integer. *)
Definition string_of_Z (n : Z) : string := NilZero.string_of_int (Z.to_int n).

(** [s.replace(/pat/g, '')] for a literal, non-empty [pat]: the matches are
    taken left to right and do not overlap.  [skip] counts the characters of
    the current match still to be dropped. *)
Fixpoint remove_all_from (pat s : string) (skip : nat) : string :=
  match s with
  | EmptyString => EmptyString
  | String c rest =>
      match skip with
      | S k => remove_all_from pat rest k
      | O =>
          if String.prefix pat s
          then remove_all_from pat rest (String.length pat - 1)
          else String c (remove_all_from pat rest 0)
      end
  end.

Definition remove_all (pat s : string) : string := remove_all_from pat s 0.

(** Strings are the UTF-8 bytes of well-formed text, one [ascii] per byte.
    [utf8 bytes] is the string with these bytes. *)
Definition utf8 (bytes : list nat) : string :=
  string_of_list_ascii (map ascii_of_nat bytes).

(** What [trim()] removes: the WhiteSpace and LineTerminator code points of
    ECMAScript, each as its UTF-8 encoding.  TAB, LF, VT, FF, CR, space,
    U+00A0, U+1680, U+2000 to U+200A, U+2028, U+2029, U+202F, U+205F, U+3000
    and U+FEFF. *)
Definition white_space : list string :=
  [ utf8 [9]%nat; utf8 [10]%nat; utf8 [11]%nat; utf8 [12]%nat; utf8 [13]%nat; utf8 [32]%nat;
    utf8 [194; 160]%nat;
    utf8 [225; 154; 128]%nat;
    utf8 [226; 128; 128]%nat; utf8 [226; 128; 129]%nat; utf8 [226; 128; 130]%nat;
    utf8 [226; 128; 131]%nat; utf8 [226; 128; 132]%nat; utf8 [226; 128; 133]%nat;
    utf8 [226; 128; 134]%nat; utf8 [226; 128; 135]%nat; utf8 [226; 128; 136]%nat;
    utf8 [226; 128; 137]%nat; utf8 [226; 128; 138]%nat;
    utf8 [226; 128; 168]%nat; utf8 [226; 128; 169]%nat;
    utf8 [226; 128; 175]%nat;
    utf8 [226; 129; 159]%nat;
    utf8 [227; 128; 128]%nat;
    utf8 [239; 187; 191]%nat ].

(** The number of bytes of the white-space character [s] starts with, 0 when
    it starts with none. *)
Definition space_width (s : string) : nat :=
  match find (fun ws => String.prefix ws s) white_space with
  | Some ws => String.length ws
  | None => 0
  end.

(** [skip] counts the bytes of the current white-space character still to be
    dropped. *)
Fixpoint trim_start_from (s : string) (skip : nat) : string :=
  match s with
  | EmptyString => EmptyString
  | String c rest =>
      match skip with
      | S k => trim_start_from rest k
      | O =>
          match space_width s with
          | O => s
          | S k => trim_start_from rest k
          end
      end
  end.

Definition trim_start (s : string) : string := trim_start_from s 0.

(** [s] is white space from its first byte to its last. *)
Definition spaces_only (s : string) : bool :=
  match trim_start s with EmptyString => true | String _ _ => false end.

Fixpoint trim_end (s : string) : string :=
  match s with
  | EmptyString => EmptyString
  | String c rest => if spaces_only s then EmptyString else String c (trim_end rest)
  end.

Definition trim (s : string) : string := trim_end (trim_start s).

(** [s.length]: the number of UTF-16 code units of the text.  A byte below
    128 is a character of one unit; a continuation byte (128 to 191) adds
    nothing to the character its lead byte started; a lead byte below 240
    starts a character of the basic plane, one unit; a lead byte from 240
    starts a character beyond it, a surrogate pair. *)
Definition utf16_units (c : ascii) : nat :=
  let n := nat_of_ascii c in
  if (n <? 128)%nat then 1
  else if (n <? 192)%nat then 0
  else if (n <? 240)%nat then 1
  else 2.

Fixpoint js_length (s : string) : nat :=
  match s with
  | EmptyString => 0
  | String c rest => utf16_units c + js_length rest
  end.

Definition open_brace : ascii := "{"%char.
Definition close_brace : ascii := "}"%char.

(** The suffix of [s] that starts at its first opening brace. *)
Fixpoint from_first_open (s : string) : option string :=
  match s with
  | EmptyString => None
  | String c rest =>
      if Ascii.eqb c open_brace then Some s else from_first_open rest
  end.

(** The longest prefix of [s] that ends with a closing brace. *)
Fixpoint upto_last_close (s : string) : option string :=
  match s with
  | EmptyString => None
  | String c rest =>
      match upto_last_close rest with
      | Some p => Some (String c p)
      | None => if Ascii.eqb c close_brace then Some (String c EmptyString) else None
      end
  end.

(** [s.match(/\{[\s\S]*\}/)]: the greedy match runs from the first opening
    brace to the last closing brace after it; [None] is [null]. *)
Definition match_braces (s : string) : option string :=
  match from_first_open s with
  | Some (String c rest) =>
      match upto_last_close rest with
      | Some p => Some (String c p)
      | None => None
      end
  | _ => None
  end.

(** ** Requests to, and answers of, the hosted services *)

Record chat_message := { role : string; content : string }.

(** The argument of [openai.chat.completions.create]. *)
Record completion_request := {
  model : string;
  messages : list chat_message;
  max_tokens : Z;
  temperature : Q;
  stream : bool;
  json_object : bool   (* response_format: { type: "json_object" } *)
}.

(** What the provider reports in [completion.usage]. *)
Record provider_usage := {
  prompt_tokens : Z;
  completion_tokens : Z;
  total_tokens : Z
}.

(** The [usage] member of a chat answer. *)
Inductive usage : Type :=
| Reported (u : provider_usage)            (* completion.usage *)
| Counted (input_tokens output_tokens : Z) (* { input_tokens, output_tokens } *)
| NoUsage.                                 (* {} *)

(** A call without [stream]: the promise rejects, or resolves to a completion
    of which the code reads [choices[0]?.message?.content] and [usage]. *)
Inductive completion_outcome : Type :=
| Rejects
| Completion (message_content : option string) (reported : option provider_usage).

(** A call with [stream: true]: the chunks that arrive, each reduced to the
    [choices[0].delta.content] the loop reads ([None] when a link of that
    chain is missing), and the error that ends the call or the iteration, if
    one does. *)
Record stream_outcome := {
  chunks : list (option string);
  failure : option string   (* error.message *)
}.

(** One entry of SerpApi's [text_blocks], [organic_results], [references]. *)
Record text_block := {
  tb_snippet : option string;
  tb_title : option string;
  tb_text : option string;
  tb_source : option string;
  tb_link : option string;
  tb_source_url : option string
}.

Record organic_result := {
  or_title : option string;
  or_link : option string;
  or_favicon : option string;
  or_snippet : option string
}.

Record reference := {
  ref_title : option string;
  ref_source : option string;
  ref_link : option string;
  ref_source_icon : option string
}.

(** A member of the search answer that the code expects to be an array:
    missing (or falsy), an array of objects, or some other truthy value, on
    which [.map] and [.slice(..).map] raise a [TypeError]. *)
Inductive member (A : Type) : Type :=
| Absent
| NotArray
| Items (l : list A).
Arguments Absent {A}.
Arguments NotArray {A}.
Arguments Items {A} l.

Record serp_data := {
  error : option string;
  text_blocks : member text_block;
  organic_results : member organic_result;
  references : member reference
}.

(** The Supabase calls of the handlers, by call site. *)
Inductive db_call : Type :=
| CreateChat
| InsertUserMessage
| LoadHistory
| InsertAssistantMessage
| FetchMessages
| ListChats.

Record world := {
  (* process.env, read once at start-up *)
  HF_API_KEY : option string;
  HF_MODEL : string;
  SERP_API_KEY : option string;
  supabase : bool;                       (* false: the client is null *)
  (* runtime *)
  JSON_parse : string -> option jsval;   (* None: SyntaxError *)
  Date_now : Z;
  encode : string -> option (list nat);  (* js-tiktoken; None: it throws *)
  (* services *)
  create_completion : completion_request -> completion_outcome;
  create_stream : completion_request -> stream_outcome;
  serp_fetch : string -> option serp_data; (* None: fetch or res.json() throws *)
  db_fault : db_call -> bool;            (* the call resolves with an error *)
  uuid_generate_v4 : string              (* id the database gives a new chat *)
}.

(** ** Token counter helper

    [text.length] counts UTF-16 code units, [js_length]; [Math.ceil(n / 4)]
    is exact on such lengths. *)

Definition countTokens (w : world) (text : string) : Z :=
  match encode w text with
  | Some tokens => Z.of_nat (List.length tokens)
  | None => (Z.of_nat (js_length text) + 3) / 4
  end.

(** ** The store and the record of calls made

    What a handler leaves behind: the two tables of schema.sql, rows in the
    order they were inserted (which is the order of [created_at]), and the
    calls it made to the hosted services.  A query of the Supabase client
    resolves to [{ data, error }]: a failure is an [error] that is set, never
    a rejected promise, and a type error such as an id that is not a uuid is
    one of the faults the world decides. *)

Record message_row := {
  row_chat_id : string;
  row_role : string;
  row_content : string
}.

Record database := {
  chats_table : list string;           (* chats.id *)
  messages_table : list message_row
}.

Inductive event : Type :=
| Completes (req : completion_request)   (* await create({...}) *)
| Streams (req : completion_request)     (* await create({..., stream: true}) *)
| Searches (query : string).             (* fetch(serpapi.com/search.json?q=...) *)

Record store := {
  db : database;
  calls : list event
}.

Definition M (A : Type) : Type := store -> A * store.

Definition ret {A : Type} (a : A) : M A := fun st => (a, st).

Definition bind {A B : Type} (c : M A) (k : A -> M B) : M B :=
  fun st => let (a, st') := c st in k a st'.

Notation "x <- c ;; k" := (bind c (fun x => k))
  (at level 61, c at next level, right associativity).
Notation "c ;;; k" := (bind c (fun _ => k))
  (at level 61, right associativity).

Definition record_call (e : event) : M unit :=
  fun st => (tt, {| db := db st; calls := calls st ++ [e] |}).

Definition update_db (f : database -> database) : M unit :=
  fun st => (tt, {| db := f (db st); calls := calls st |}).

Definition read_db : M database := fun st => (db st, st).

(** [supabase.from('chats').insert({}).select().single()]: [data.id] of the
    new row, or [None] for an error (a fault of the service, or the primary
    key refusing the id). *)
Definition insert_chat (w : world) : M (option string) :=
  d <- read_db ;;
  let id := uuid_generate_v4 w in
  if db_fault w CreateChat || existsb (String.eqb id) (chats_table d)
  then ret None
  else
    update_db (fun d => {| chats_table := chats_table d ++ [id];
                           messages_table := messages_table d |}) ;;;
    ret (Some id).

(** [supabase.from('messages').insert(row)]: the row is added unless the
    service faults or the foreign key finds no chat with that id.  [true]
    is the error the promise resolves with. *)
Definition insert_message (w : world) (site : db_call) (row : message_row) : M bool :=
  d <- read_db ;;
  if db_fault w site || negb (existsb (String.eqb (row_chat_id row)) (chats_table d))
  then ret true
  else
    update_db (fun d => {| chats_table := chats_table d;
                           messages_table := messages_table d ++ [row] |}) ;;;
    ret false.

(** [supabase.from('messages').select(..).eq('chat_id', id).order('created_at',
    { ascending: true })]: the rows, or [None] for an error. *)
Definition select_messages (w : world) (site : db_call) (id : string)
  : M (option (list message_row)) :=
  d <- read_db ;;
  if db_fault w site then ret None
  else ret (Some (filter (fun r => String.eqb (row_chat_id r) id) (messages_table d))).

(** [supabase.from('chats').select('*').order('created_at', { ascending: false
    }).limit(20)]. *)
Definition select_chats (w : world) : M (option (list string)) :=
  d <- read_db ;;
  if db_fault w ListChats then ret None
  else ret (Some (firstn 20 (rev (chats_table d)))).

(** ** What a handler answers *)

Inductive response : Type :=
| BadRequest (err : string)     (* res.status(400).json({ error }) *)
| ServerError (err : string)    (* res.status(500).json({ error }) *)
| ChatReply (chat_id : string) (reply : string) (use : usage)
| MessageList (rows : list message_row)   (* { messages } *)
| ChatList (ids : list string)            (* { chats } *)
| SmartPrompt (issues optimizedPrompt : jsval)
              (originalTokens : Z) (optimizedTokens : option Z).

(** ** POST /smart-prompt *)

Definition SMART_PROMPT_MODEL : string := "meta-llama/Llama-3.1-8B-Instruct:novita".

Definition SMART_PROMPT_SYSTEM : string :=
  "You are a JSON-generating AI. Your ONLY task is to analyze prompts and return a JSON object." ++
  nl ++ "                    " ++ nl ++ "                    CORE OBJECTIVE:" ++ nl ++
  "                    Rewrite the user's prompt to be significantly shorter (fewer tokens) while maintaining 100% of the original intent." ++
  nl ++ "                    " ++ nl ++ "                    TASKS:" ++ nl ++
  "                    1. Identify issues: Ambiguous references, Missing inputs, Conflicting instructions, Redundant phrasing." ++
  nl ++
  "                    2. OPTIMIZE: Remove fluff, use precise terminology, and condense structure." ++
  nl ++ "                       - BAD: " ++ dq ++
  "Can you please write a function that will help me to calculate the sum of two numbers?" ++ dq ++
  " (18 tokens)" ++ nl ++ "                       - GOOD: " ++ dq ++
  "Write a function to sum two numbers." ++ dq ++ " (7 tokens)" ++ nl ++ "                    " ++
  nl ++ "                    OUTPUT FORMAT:" ++ nl ++
  "                    Return ONLY a valid JSON object with this structure:" ++ nl ++
  "                    {" ++ nl ++ "                        " ++ dq ++ "issues" ++ dq ++ ": [" ++
  dq ++ "Issue 1" ++ dq ++ ", " ++ dq ++ "Issue 2" ++ dq ++ "]," ++ nl ++
  "                        " ++ dq ++ "optimized_prompt" ++ dq ++ ": " ++ dq ++
  "rewritten prompt here" ++ dq ++ nl ++ "                    }" ++ nl ++
  "                    Do not include markdown formatting, explanations, or code blocks. Just the raw JSON string.".

Definition smart_prompt_request (prompt : string) : completion_request :=
  {| model := SMART_PROMPT_MODEL;
     messages := [ {| role := "system"; content := SMART_PROMPT_SYSTEM |};
                   {| role := "user"; content := prompt |} ];
     max_tokens := 500;
     temperature := 3 # 10;
     stream := false;
     json_object := true |}.

(** [rawContent.replace(/```json/g, '').replace(/```/g, '').trim()] *)
Definition strip_fences (rawContent : string) : string :=
  trim (remove_all "```" (remove_all "```json" rawContent)).

Definition PARSE_ERROR_ISSUE : string :=
  "Could not analyze prompt structure (JSON Parse Error)".

(** The object the innermost [catch] builds. *)
Definition parse_failure (prompt : string) : jsval :=
  JObj [ ("issues", JArr [JStr PARSE_ERROR_ISSUE]);
         ("optimized_prompt", JStr prompt) ].

(** The "Robust JSON Parsing" block: direct parse, then the text without
    markdown fences, then the first-to-last brace match, then the fallback. *)
Definition robust_parse (w : world) (rawContent prompt : string) : jsval :=
  match JSON_parse w rawContent with
  | Some result => result
  | None =>
      match JSON_parse w (strip_fences rawContent) with
      | Some result => result
      | None =>
          match match_braces rawContent with
          | Some m =>
              match JSON_parse w m with
              | Some result => result
              | None => parse_failure prompt
              end
          | None => parse_failure prompt
          end
      end
  end.

(** [countTokens] of a value: the helper is specified on text; on a value
    that is not a string the count is left open ([None]). *)
Definition countTokens_of (w : world) (v : jsval) : option Z :=
  match v with
  | JStr s => Some (countTokens w s)
  | _ => None
  end.

Definition smart_prompt (w : world) (prompt : option string) : M response :=
  if negb (present prompt) then ret (BadRequest "Prompt is required")
  else
    let p := show prompt in
    record_call (Completes (smart_prompt_request p)) ;;;
    match create_completion w (smart_prompt_request p) with
    | Rejects => ret (ServerError "Failed to analyze prompt")
    | Completion message_content _ =>
        let rawContent := if present message_content then show message_content else "{}" in
        let result := robust_parse w rawContent p in
        let originalTokens := countTokens w p in
        match get_prop result "optimized_prompt", get_prop result "issues" with
        | Some optimized, Some issues =>
            ret (SmartPrompt (js_or issues (JArr []))
                             (js_or optimized (JStr p))
                             originalTokens
                             (countTokens_of w (js_or optimized (JStr p))))
        | _, _ => ret (ServerError "Failed to analyze prompt")
        end
    end.

(** ** Web search helper *)

Record source := {
  title : option string;
  link : option string;
  favicon : option string
}.

Record search_result := {
  context : string;
  sources : list source
}.

Definition is_set {A : Type} (m : member A) : bool :=
  match m with Absent => false | _ => true end.

(** [.filter(Boolean)] on an array of optional strings. *)
Fixpoint compact (l : list (option string)) : list string :=
  match l with
  | [] => []
  | o :: rest => if present o then show o :: compact rest else compact rest
  end.

(** [b.snippet || b.title || b.text] *)
Definition block_chunk (b : text_block) : option string :=
  or_else (or_else (tb_snippet b) (tb_title b)) (tb_text b).

(** The chunks before the cut to fifteen; [None] is a [TypeError]. *)
Definition extract_chunks (data : serp_data) : option (list string) :=
  let chunks :=
    match text_blocks data with
    | Items bs => compact (map block_chunk bs)
    | _ => []
    end in
  if (List.length chunks =? 0)%nat && is_set (organic_results data)
  then match organic_results data with
       | Items rs => Some (compact (map or_snippet rs))
       | _ => None
       end
  else Some chunks.

Definition organic_source (r : organic_result) : source :=
  {| title := or_title r; link := or_link r; favicon := or_favicon r |}.

Definition reference_source (r : reference) : source :=
  {| title := or_else (or_else (ref_title r) (ref_source r)) (Some "Source");
     link := ref_link r;
     favicon := ref_source_icon r |}.

Definition block_source (b : text_block) : source :=
  {| title := or_else (or_else (tb_title b) (tb_source b)) (Some "Source");
     link := or_else (tb_link b) (tb_source_url b);
     favicon := None |}.

(** [a === b] on optional strings. *)
Definition same_link (a b : option string) : bool :=
  match a, b with
  | Some x, Some y => String.eqb x y
  | None, None => true
  | _, _ => false
  end.

(** The body of [blockSources.forEach]. *)
Definition merge_source (sources : list source) (bs : source) : list source :=
  if negb (existsb (fun s => same_link (link s) (link bs)) sources)
     && (List.length sources <? 5)%nat
  then sources ++ [bs]
  else sources.

(** Strategy 1: organic results. *)
Definition organic_sources (data : serp_data) : option (list source) :=
  match organic_results data with
  | Absent => Some []
  | NotArray => None
  | Items rs => Some (map organic_source (firstn 5 rs))
  end.

(** Strategy 2: references, when strategy 1 found nothing. *)
Definition with_references (data : serp_data) (sources : list source)
  : option (list source) :=
  if (List.length sources =? 0)%nat && is_set (references data)
  then match references data with
       | Items rs => Some (map reference_source (firstn 5 rs))
       | _ => None
       end
  else Some sources.

(** Strategy 3: text blocks with inline links, merged in while fewer than
    three sources are known. *)
Definition with_block_sources (data : serp_data) (sources : list source)
  : option (list source) :=
  if (List.length sources <? 3)%nat && is_set (text_blocks data)
  then match text_blocks data with
       | Items bs =>
           Some (fold_left merge_source
                   (filter (fun s => present (link s)) (map block_source bs))
                   sources)
       | _ => None
       end
  else Some sources.

Definition and_then {A B : Type} (o : option A) (k : A -> option B) : option B :=
  match o with Some a => k a | None => None end.

(** The part of [performWebSearch] after the answer has arrived; [None] is
    the [null] of the [data.error] test and of the [catch]. *)
Definition read_results (data : serp_data) : option search_result :=
  if present (error data) then None
  else
    and_then (extract_chunks data) (fun chunks =>
    let topChunks := firstn 15 chunks in
    and_then (organic_sources data) (fun s1 =>
    and_then (with_references data s1) (fun s2 =>
    and_then (with_block_sources data s2) (fun s3 =>
    Some {| context := String.concat (nl ++ nl) topChunks; sources := s3 |})))).

Definition performWebSearch (w : world) (query : string) : M (option search_result) :=
  if negb (present (SERP_API_KEY w)) then ret None
  else
    record_call (Searches query) ;;;
    ret (and_then (serp_fetch w query) read_results).

(** ** Depth instructions *)

Definition depthInstructions : list (string * string) :=
  [ ("Concise", "IMPORTANT CONSTRAINT: Keep your response extremely concise, approximately 100-150 words.");
    ("Short", "IMPORTANT CONSTRAINT: Keep your response short and to the point, approximately 200-300 words.");
    ("Medium", "IMPORTANT CONSTRAINT: Provide a standard medium-length response, approximately 400-600 words.");
    ("Large", "IMPORTANT CONSTRAINT: Provide a very detailed, comprehensive, and in-depth response, approximately 800-1000 words.") ].

Definition native (name : string) : string :=
  "function " ++ name ++ "() { [native code] }".

(** The members every object literal inherits from [Object.prototype], each
    with the text a template literal prints for it: the built-in functions
    print their native source, [__proto__] is [Object.prototype] itself. *)
Definition Object_prototype : list (string * string) :=
  [ ("constructor", native "Object");
    ("__defineGetter__", native "__defineGetter__");
    ("__defineSetter__", native "__defineSetter__");
    ("hasOwnProperty", native "hasOwnProperty");
    ("__lookupGetter__", native "__lookupGetter__");
    ("__lookupSetter__", native "__lookupSetter__");
    ("isPrototypeOf", native "isPrototypeOf");
    ("propertyIsEnumerable", native "propertyIsEnumerable");
    ("toString", native "toString");
    ("valueOf", native "valueOf");
    ("__proto__", "[object Object]");
    ("toLocaleString", native "toLocaleString") ].

(** What [literal[key]] reads on an object literal with string members. *)
Inductive property : Type :=
| OwnString (s : string)
| Inherited (printed : string)   (* a function or an object: truthy *)
| NotFound.                      (* undefined *)

Definition read_property (literal : list (string * string)) (key : string) : property :=
  match assoc key literal with
  | Some s => OwnString s
  | None =>
      match assoc key Object_prototype with
      | Some printed => Inherited printed
      | None => NotFound
      end
  end.

Definition property_truthy (p : property) : bool :=
  match p with
  | OwnString s => nonempty s
  | Inherited _ => true
  | NotFound => false
  end.

(** [`${p}`] *)
Definition print_property (p : property) : string :=
  match p with
  | OwnString s => s
  | Inherited printed => printed
  | NotFound => "undefined"
  end.

(** [depthInstructions[depth] || depthInstructions['Short']], as the
    template literals of both flows print it. *)
Definition depthInstruction (depth : string) : string :=
  print_property
    (if property_truthy (read_property depthInstructions depth)
     then read_property depthInstructions depth
     else read_property depthInstructions "Short").

(** A parameter with a default value: the default replaces [undefined] only. *)
Definition default_to (d : string) (o : option string) : string :=
  match o with Some s => s | None => d end.

(** ** Web search flow *)

Definition NO_WEB_RESULTS : string :=
  "No web results found. Please answer based on your general knowledge.".

Definition KIMI_MODEL : string := "moonshotai/Kimi-K2-Instruct-0905:groq".

Definition KIMI_SYSTEM : string :=
  "You are Kimi, an intelligent AI assistant capable of synthesizing web search results.".

Definition web_prompt (query context instruction : string) : string :=
  (nl ++ "    ### USER QUERY:" ++ nl ++ "    ")
  ++ query ++
  (nl ++ nl ++ "    ### WEB SEARCH CONTEXT:" ++ nl ++ "    ")
  ++ context ++
  (nl ++ nl ++ "    ### INSTRUCTIONS:" ++ nl ++
  "    1. Answer the user's query comprehensively using the provided context." ++ nl ++
  "    2. Cite the information implicitly by synthesizing it." ++ nl ++ "    3. ")
  ++ instruction ++
  (nl ++ "    4. Format nicely with Markdown." ++ nl ++ "    ").

Definition web_search_request (query context : string) (depth : string)
  : completion_request :=
  {| model := KIMI_MODEL;
     messages := [ {| role := "system"; content := KIMI_SYSTEM |};
                   {| role := "user";
                      content := web_prompt query context (depthInstruction depth) |} ];
     max_tokens := 2048;
     temperature := 7 # 10;
     stream := false;
     json_object := false |}.

Definition SOURCES_HEADER : string :=
  nl ++ nl ++ "---" ++ nl ++ "### 🌐 Sources" ++ nl.

(** [sources.forEach((s, i) => { response += `${i+1}. [${s.title}](${s.link})\n` })],
    entered at index [i]. *)
Fixpoint append_sources (response : string) (i : nat) (sources : list source) : string :=
  match sources with
  | [] => response
  | s :: rest =>
      append_sources
        (response ++ string_of_Z (Z.of_nat i + 1) ++ ". [" ++ show (title s) ++ "]("
                  ++ show (link s) ++ ")" ++ nl)
        (S i) rest
  end.

(** [searchResult?.context || "No web results found. ..."] *)
Definition context_of (searchResult : option search_result) : string :=
  match searchResult with
  | Some r => if nonempty (context r) then context r else NO_WEB_RESULTS
  | None => NO_WEB_RESULTS
  end.

(** [searchResult?.sources || []] *)
Definition sources_of (searchResult : option search_result) : list source :=
  match searchResult with
  | Some r => sources r
  | None => []
  end.

(** The [try] block around the call to Kimi, and its [catch]. *)
Definition web_answer (answer : completion_outcome) (sources : list source)
  : string * usage :=
  match answer with
  | Rejects => ("Error generating web search response.", NoUsage)
  | Completion message_content reported =>
      let response :=
        if present message_content then show message_content
        else "Failed to generate response." in
      let response :=
        if (0 <? List.length sources)%nat
        then append_sources (response ++ SOURCES_HEADER) 0 sources
        else response in
      (response,
       match reported with
       | Some u => Reported u
       | None => Counted 0 0
       end)
  end.

Definition handleWebSearchFlow (w : world) (query : string) (depth : option string)
  : M (string * usage) :=
  let depth := default_to "Short" depth in
  searchResult <- performWebSearch w query ;;
  let context := context_of searchResult in
  let sources := sources_of searchResult in
  record_call (Completes (web_search_request query context depth)) ;;;
  ret (web_answer (create_completion w (web_search_request query context depth)) sources).

(** ** Standard flow *)

Definition SANYAI_SYSTEM : string :=
  "You are Sanyai, an advanced AI assistant designed to be helpful, engaging, and visually structured." ++
  nl ++ nl ++ "### GUIDELINES:" ++ nl ++
  "1. **FORMATTING**: Use **GitHub Flavored Markdown** exclusively. Make your responses visually appealing." ++
  nl ++
  "2. **STRUCTURE**: Use **Markdown Tables** for data/comparisons. Use **Bold** for key terms. Use **Headers** (#, ##) to separate sections." ++
  nl ++
  "3. **NO HTML**: NEVER use HTML tags like <br>, <b>, <i>, <table>, etc. Use standard Markdown syntax instead." ++
  nl ++
  "4. **ENGAGEMENT**: Use emojis 🚀✨ sparingly in headers to make them pop. Use `code blocks` for technical terms." ++
  nl ++
  "5. **CLARITY**: Use bullet points and numbered lists for readability. Use > Blockquotes for summaries or important notes." ++
  nl ++ "6. **LENGTH CONSTRAINT**: ".

Definition MISSING_TOKEN_REPLY : string :=
  "Error: Hugging Face Access Token is missing. Please check your .env file.".

Definition EMPTY_REPLY : string :=
  "I apologize, but I received an empty response from the AI model. Please try again.".

Definition model_error_reply (message : string) : string :=
  "Error calling AI Model: " ++ message ++ ". Please check your API key and connection.".

Definition generate_request (w : world) (prompt : list chat_message) (depth : string)
  : completion_request :=
  {| model := HF_MODEL w;
     messages := {| role := "system";
                    content := SANYAI_SYSTEM ++ depthInstruction depth |} :: prompt;
     max_tokens := 2048;
     temperature := 7 # 10;
     stream := true;
     json_object := false |}.

(** The [for await] loop: [out += chunk.choices[0].delta.content] for the
    chunks that carry one. *)
Definition collect (chunks : list (option string)) : string :=
  fold_left (fun out chunk => if present chunk then out ++ show chunk else out)
            chunks "".

(** What [generateResponse] returns once the stream has ended: the [catch]
    when it ended in an error, else the text collected, or the apology when
    there is none. *)
Definition stream_reply (answer : stream_outcome) : string :=
  match failure answer with
  | Some message => model_error_reply message
  | None =>
      if nonempty (collect (chunks answer)) then collect (chunks answer)
      else EMPTY_REPLY
  end.

Definition generateResponse (w : world) (prompt : list chat_message) (depth : option string)
  : M string :=
  let depth := default_to "Short" depth in
  if negb (present (HF_API_KEY w)) then ret MISSING_TOKEN_REPLY
  else
    record_call (Streams (generate_request w prompt depth)) ;;;
    ret (stream_reply (create_stream w (generate_request w prompt depth))).

(** LangChain messages, as far as the graph uses them. *)
Inductive lc_message : Type :=
| HumanMessage (text : string)
| AIMessage (text : string) (usage_kwarg : option usage).

Definition getType (msg : lc_message) : string :=
  match msg with HumanMessage _ => "human" | AIMessage _ _ => "ai" end.

Definition lc_content (msg : lc_message) : string :=
  match msg with HumanMessage t => t | AIMessage t _ => t end.

Definition lc_usage (msg : lc_message) : option usage :=
  match msg with HumanMessage _ => None | AIMessage _ u => u end.

(** The two state channels: [messages] concatenates, [depth] keeps the last
    write. *)
Record graph_state := {
  gs_messages : list lc_message;
  gs_depth : string
}.

(** The node "agent": its result is the update to [messages]. *)
Definition callModel (w : world) (state : graph_state) : M (list lc_message) :=
  let depth := if nonempty (gs_depth state) then gs_depth state else "Medium" in
  let formattedHistory :=
    map (fun msg => {| role := if String.eqb (getType msg) "human"
                               then "user" else "assistant";
                       content := lc_content msg |})
        (gs_messages state) in
  responseContent <- generateResponse w formattedHistory (Some depth) ;;
  let inputTokens :=
    fold_left (fun acc msg => acc + countTokens w (content msg)) formattedHistory 0 in
  let outputTokens := countTokens w responseContent in
  ret [AIMessage responseContent (Some (Counted inputTokens outputTokens))].

(** [appGraph.invoke]: START -> agent -> END. *)
Definition invoke (w : world) (input : graph_state) : M graph_state :=
  let state := {| gs_messages := [] ++ gs_messages input; gs_depth := gs_depth input |} in
  update <- callModel w state ;;
  ret {| gs_messages := gs_messages state ++ update; gs_depth := gs_depth state |}.

Definition runLangGraph (w : world) (history : list chat_message) (depth : option string)
  : M (string * usage) :=
  let depth := default_to "Medium" depth in
  let inputs :=
    map (fun msg => if String.eqb (role msg) "user"
                    then HumanMessage (content msg)
                    else AIMessage (content msg) None)
        history in
  result <- invoke w {| gs_messages := inputs; gs_depth := depth |} ;;
  let lastMessage := last (gs_messages result) (AIMessage "" None) in
  ret (lc_content lastMessage,
       match lc_usage lastMessage with
       | Some u => u
       | None => Counted 0 0
       end).

(** ** POST /chat *)

Record chat_body := {
  chat_id : option string;
  message : option string;
  depth : option string;
  webSearch : bool
}.

Definition local_id (w : world) : string := "local-" ++ string_of_Z (Date_now w).

(** 1. Handle Chat Session *)
Definition chat_session (w : world) (chat_id : option string) : M string :=
  if present chat_id then ret (show chat_id)
  else if supabase w then
    created <- insert_chat w ;;
    match created with
    | Some id => ret id
    | None => ret (local_id w)
    end
  else ret (local_id w).

(** 2. and 5.: the two inserts into [messages]; their outcome is not read. *)
Definition save_message (w : world) (site : db_call) (id role content : string) : M unit :=
  if supabase w then
    insert_message w site
      {| row_chat_id := id; row_role := role; row_content := content |} ;;;
    ret tt
  else ret tt.

(** 3. Load Conversation Context *)
Definition load_context (w : world) (id message : string) : M (list chat_message) :=
  if supabase w then
    history <- select_messages w LoadHistory id ;;
    match history with
    | Some rows =>
        ret (map (fun r => {| role := row_role r; content := row_content r |}) rows)
    | None => ret [ {| role := "user"; content := message |} ]
    end
  else ret [ {| role := "user"; content := message |} ].

Definition post_chat (w : world) (body : chat_body) : M response :=
  if negb (present (message body)) then ret (BadRequest "Message is required")
  else
    let message := show (message body) in
    let depth := if present (depth body) then show (depth body) else "Short" in
    id <- chat_session w (chat_id body) ;;
    save_message w InsertUserMessage id "user" message ;;;
    conversation <- load_context w id message ;;
    result <- (if webSearch body
               then handleWebSearchFlow w message (Some depth)
               else runLangGraph w conversation (Some depth)) ;;
    let (assistantResponse, use) := result in
    save_message w InsertAssistantMessage id "assistant" assistantResponse ;;;
    ret (ChatReply id assistantResponse use).

(** ** GET /chat/:id and GET /chats *)

Definition get_chat (w : world) (id : string) : M response :=
  if negb (supabase w) then ret (MessageList [])
  else
    answer <- select_messages w FetchMessages id ;;
    match answer with
    | Some data => ret (MessageList data)
    | None => ret (MessageList [])
    end.

Definition get_chats (w : world) : M response :=
  if negb (supabase w) then ret (ChatList [])
  else
    answer <- select_chats w ;;
    match answer with
    | Some data => ret (ChatList data)
    | None => ret (ChatList [])
    end.

(** ** The HTTP surface *)

Inductive request : Type :=
| PostSmartPrompt (prompt : option string)
| PostChat (body : chat_body)
| GetChat (id : string)
| GetChats.

Definition serve (w : world) (req : request) : M response :=
  match req with
  | PostSmartPrompt prompt => smart_prompt w prompt
  | PostChat body => post_chat w body
  | GetChat id => get_chat w id
  | GetChats => get_chats w
  end.

(** A session: each request is served in the world it meets, on the store
    its predecessors left. *)
Fixpoint serve_all (session : list (world * request)) (st : store) : list response * store :=
  match session with
  | [] => ([], st)
  | (w, req) :: rest =>
      let (r, st1) := serve w req st in
      let (rs, st2) := serve_all rest st1 in
      (r :: rs, st2)
  end.

(** ** Notions the statements are written with *)

(** None of the three attempts of the parsing block yields a value. *)
Definition unparseable (w : world) (rawContent : string) : Prop :=
  JSON_parse w rawContent = None /\
  JSON_parse w (strip_fences rawContent) = None /\
  (forall m, match_braces rawContent = Some m -> JSON_parse w m = None).

(** The tiers the client offers. *)
Definition depth_labels : list string := ["Concise"; "Short"; "Medium"; "Large"].

(** No chat, no message, no call made yet. *)
Definition empty_store : store :=
  {| db := {| chats_table := []; messages_table := [] |}; calls := [] |}.

(** The call [performWebSearch] makes: none without an API key. *)
Definition searched (w : world) (query : string) : list event :=
  if present (SERP_API_KEY w) then [Searches query] else [].

(** The call [generateResponse] makes: none without an access token. *)
Definition streamed (w : world) (prompt : list chat_message) (depth : string) : list event :=
  if present (HF_API_KEY w) then [Streams (generate_request w prompt depth)] else [].

(** The history as [callModel] hands it to [generateResponse]: whatever is
    not a user turn is an assistant turn. *)
Definition formatted (history : list chat_message) : list chat_message :=
  map (fun msg => {| role := if String.eqb (role msg) "user" then "user" else "assistant";
                     content := content msg |})
      history.

(** The depth [callModel] passes on, from the one [runLangGraph] is given. *)
Definition graph_depth (depth : option string) : string :=
  if nonempty (default_to "Medium" depth) then default_to "Medium" depth else "Medium".

(** [inputTokens] of [callModel]. *)
Definition input_tokens_of (w : world) (history : list chat_message) : Z :=
  fold_left (fun acc msg => acc + countTokens w (content msg)) (formatted history) 0.

(** [if (!depth) depth = 'Short'] *)
Definition chosen_depth (body : chat_body) : string :=
  if present (depth body) then show (depth body) else "Short".

(** The store after a row was added to [chats], to [messages]. *)
Definition with_chat (id : string) (st : store) : store :=
  {| db := {| chats_table := (chats_table (db st) ++ [id])%list;
              messages_table := messages_table (db st) |};
     calls := calls st |}.

Definition with_message (row : message_row) (st : store) : store :=
  {| db := {| chats_table := chats_table (db st);
              messages_table := (messages_table (db st) ++ [row])%list |};
     calls := calls st |}.

(** Some row of [chats] has this id. *)
Definition known_chat (id : string) (st : store) : bool :=
  existsb (String.eqb id) (chats_table (db st)).

(** Step 4 of POST /chat: the flow the request is routed to. *)
Definition respond (w : world) (body : chat_body) (text : string)
  (conversation : list chat_message) : M (string * usage) :=
  if webSearch body
  then handleWebSearchFlow w text (Some (chosen_depth body))
  else runLangGraph w conversation (Some (chosen_depth body)).

(** The rows POST /chat adds, in order. *)
Definition saved (w : world) (site : db_call) (id : string) (st : store)
  (row : message_row) : list message_row :=
  if supabase w && negb (db_fault w site) && known_chat id st then [row] else [].

(** The request the web search flow sends to Kimi. *)
Definition kimi_request (w : world) (query depth : string) : completion_request :=
  web_search_request query
    (context_of (fst (performWebSearch w query empty_store))) depth.

(** The call to a model did not return: the promise rejected, or the stream
    ended in an error. *)
Definition call_fails (w : world) (e : event) : Prop :=
  match e with
  | Completes req => create_completion w req = Rejects
  | Streams req => failure (create_stream w req) <> None
  | Searches _ => False
  end.

(** One numbered markdown link per source, counting from [n]. *)
Fixpoint numbered_links (n : nat) (sources : list source) : string :=
  match sources with
  | [] => ""
  | s :: rest =>
      string_of_Z (Z.of_nat n) ++ ". [" ++ show (title s) ++ "](" ++ show (link s) ++ ")"
        ++ nl ++ numbered_links (S n) rest
  end.

(** The sources section: its header, then the numbered links. *)
Definition sources_section (sources : list source) : string :=
  SOURCES_HEADER ++ numbered_links 1 sources.

(** [s] ends with [suffix]. *)
Fixpoint ends_with (suffix s : string) : bool :=
  String.eqb s suffix
  || match s with
     | EmptyString => false
     | String _ rest => ends_with suffix rest
     end.

(** ** Sample worlds

    Concrete services on which the statements are exercised. *)

(** A parser that knows the empty object only. *)
Definition sample_parse (s : string) : option jsval :=
  if String.eqb s "{}" then Some (JObj []) else None.

(** An encoder with one token per byte. *)
Definition sample_encode (s : string) : option (list nat) :=
  Some (map nat_of_ascii (list_ascii_of_string s)).

(** The worlds below differ in their keys, in the database client and in how
    the services answer. *)
Definition sample_world
  (key serp_key : option string) (client : bool)
  (completes : completion_request -> completion_outcome)
  (streams : completion_request -> stream_outcome)
  (search : string -> option serp_data)
  (fault : db_call -> bool) : world :=
  {| HF_API_KEY := key;
     HF_MODEL := "openai/gpt-oss-120b:groq";
     SERP_API_KEY := serp_key;
     supabase := client;
     JSON_parse := sample_parse;
     Date_now := 1700000000000;
     encode := sample_encode;
     create_completion := completes;
     create_stream := streams;
     serp_fetch := search;
     db_fault := fault;
     uuid_generate_v4 := "7b0c4f4e-8d1a-4a57-9f0e-2f6f3a1f9c11" |}.

(** The optimization model answers with a fenced object whose key is not
    quoted. *)
Definition chatty_world : world :=
  sample_world (Some "hf_token") None false
    (fun _ => Completion (Some "```json{optimized_prompt: Sum two numbers}```") None)
    (fun _ => {| chunks := []; failure := None |})
    (fun _ => None)
    (fun _ => false).

(** The question of server/test_web_search.js. *)
Definition super_bowl : string := "Who won the Super Bowl 2024?".

(** An answer of the search service in AI mode: text blocks, two of them
    with the same link, and one reference. *)
Definition sample_results : serp_data :=
  {| error := None;
     text_blocks :=
       Items [ {| tb_snippet := Some "The Kansas City Chiefs won Super Bowl LVIII.";
                  tb_title := None; tb_text := None; tb_source := Some "NFL";
                  tb_link := Some "https://www.nfl.com/super-bowl";
                  tb_source_url := None |};
               {| tb_snippet := None; tb_title := Some "Super Bowl LVIII";
                  tb_text := None; tb_source := None; tb_link := None;
                  tb_source_url := Some "https://en.wikipedia.org/wiki/Super_Bowl_LVIII" |};
               {| tb_snippet := Some "The game went to overtime.";
                  tb_title := None; tb_text := None; tb_source := None;
                  tb_link := Some "https://www.nfl.com/super-bowl";
                  tb_source_url := None |} ];
     organic_results := Absent;
     references :=
       Items [ {| ref_title := Some "Super Bowl LVIII - Wikipedia";
                  ref_source := Some "Wikipedia";
                  ref_link := Some "https://en.wikipedia.org/wiki/Super_Bowl_LVIII";
                  ref_source_icon := None |} ] |}.

(** A stream that ends at once. *)
Definition quiet_stream : completion_request -> stream_outcome :=
  fun _ => {| chunks := []; failure := None |}.

(** A search key, no database client; the search answers [sample_results]. *)
Definition search_world (completes : completion_request -> completion_outcome) : world :=
  sample_world (Some "hf_token") (Some "serp_key") false completes quiet_stream
    (fun _ => Some sample_results) (fun _ => false).

(** The search works, the synthesis model does not. *)
Definition kimi_down_world : world := search_world (fun _ => Rejects).

(** The search works and the synthesis model answers. *)
Definition kimi_up_world : world :=
  search_world (fun _ => Completion (Some "The Kansas City Chiefs won.") None).

(** A database that works and a standard model that streams two chunks. *)
Definition stored_world : world :=
  sample_world (Some "hf_token") None true (fun _ => Rejects)
    (fun _ => {| chunks := [Some "Hello"; None; Some " there"]; failure := None |})
    (fun _ => None) (fun _ => false).

(** Neither a database client nor a reachable model. *)
Definition offline_world : world :=
  sample_world (Some "hf_token") None false (fun _ => Rejects)
    (fun _ => {| chunks := [Some "Hel"]; failure := Some "Connection error." |})
    (fun _ => None) (fun _ => false).

(** The request of server/test_web_search.js. *)
Definition web_body : chat_body :=
  {| chat_id := None; message := Some super_bowl; depth := None; webSearch := true |}.

(** The first message of a conversation, then a message into the chat it
    created. *)
Definition first_body : chat_body :=
  {| chat_id := None; message := Some "Hi"; depth := Some "Medium"; webSearch := false |}.

Definition follow_up_body : chat_body :=
  {| chat_id := Some "7b0c4f4e-8d1a-4a57-9f0e-2f6f3a1f9c11";
     message := Some "And then?"; depth := Some "Concise"; webSearch := false |}.

(** A request whose depth names a member of [Object.prototype]. *)
Definition constructor_body : chat_body :=
  {| chat_id := None; message := Some "Hi"; depth := Some "constructor";
     webSearch := false |}.

(** The database after one exchange. *)
Definition one_chat_store : store :=
  {| db := {| chats_table := ["7b0c4f4e-8d1a-4a57-9f0e-2f6f3a1f9c11"];
              messages_table :=
                [ {| row_chat_id := "7b0c4f4e-8d1a-4a57-9f0e-2f6f3a1f9c11";
                     row_role := "user"; row_content := "Hi" |};
                  {| row_chat_id := "7b0c4f4e-8d1a-4a57-9f0e-2f6f3a1f9c11";
                     row_role := "assistant"; row_content := "Hello there" |} ] |};
     calls := [] |}.

(** What the search helper makes of [sample_results]. *)
Definition sample_found : search_result :=
  {| context :=
       "The Kansas City Chiefs won Super Bowl LVIII." ++ nl ++ nl
       ++ "Super Bowl LVIII" ++ nl ++ nl ++ "The game went to overtime.";
     sources :=
       [ {| title := Some "Super Bowl LVIII - Wikipedia";
            link := Some "https://en.wikipedia.org/wiki/Super_Bowl_LVIII";
            favicon := None |};
         {| title := Some "NFL";
            link := Some "https://www.nfl.com/super-bowl";
            favicon := None |} ] |}.

(** ** Notions for the further properties *)

(** [s] without its first [n] bytes. *)
Fixpoint drop (n : nat) (s : string) : string :=
  match n, s with
  | O, _ => s
  | S k, String _ rest => drop k rest
  | S _, EmptyString => EmptyString
  end.

(** The character [c] does not occur in [s]. *)
Fixpoint lacks (c : ascii) (s : string) : bool :=
  match s with
  | EmptyString => true
  | String x rest => negb (Ascii.eqb x c) && lacks c rest
  end.

(** [pat] occurs in [s]: some suffix of [s] starts with it. *)
Fixpoint occurs (pat s : string) : bool :=
  String.prefix pat s
  || match s with
     | EmptyString => false
     | String _ rest => occurs pat rest
     end.

Definition backtick : ascii := "`"%char.

(** A markdown code block around [text], as models write it. *)
Definition fenced (text : string) : string :=
  "```json" ++ nl ++ text ++ nl ++ "```".

(** The object a well-behaved optimization model answers with. *)
Definition shorter_prompt_json : string :=
  "{" ++ dq ++ "optimized_prompt" ++ dq ++ ": " ++ dq ++ "Sum two numbers." ++ dq ++ "}".

(** A parser that knows that object, and the literal [null]. *)
Definition sample_parse_object (s : string) : option jsval :=
  if String.eqb s shorter_prompt_json
  then Some (JObj [("optimized_prompt", JStr "Sum two numbers.")])
  else if String.eqb s "null" then Some JNull
  else None.

(** A world whose optimization model answers [answer]. *)
Definition answering_world (answer : string) : world :=
  {| HF_API_KEY := Some "hf_token";
     HF_MODEL := "openai/gpt-oss-120b:groq";
     SERP_API_KEY := None;
     supabase := false;
     JSON_parse := sample_parse_object;
     Date_now := 1700000000000;
     encode := sample_encode;
     create_completion := fun _ => Completion (Some answer) None;
     create_stream := quiet_stream;
     serp_fetch := fun _ => None;
     db_fault := fun _ => false;
     uuid_generate_v4 := "7b0c4f4e-8d1a-4a57-9f0e-2f6f3a1f9c11" |}.

(** U+FEFF and U+00A0: white space of [trim()] outside ASCII. *)
Definition byte_order_mark : string := utf8 [239; 187; 191]%nat.
Definition no_break_space : string := utf8 [194; 160]%nat.

(** An encoder that throws on the end-of-text marker, a special token. *)
Definition strict_encode (s : string) : option (list nat) :=
  if occurs "<|endoftext|>" s then None else sample_encode s.

Definition strict_world : world :=
  {| HF_API_KEY := Some "hf_token";
     HF_MODEL := "openai/gpt-oss-120b:groq";
     SERP_API_KEY := None;
     supabase := false;
     JSON_parse := sample_parse;
     Date_now := 1700000000000;
     encode := strict_encode;
     create_completion := fun _ => Rejects;
     create_stream := quiet_stream;
     serp_fetch := fun _ => None;
     db_fault := fun _ => false;
     uuid_generate_v4 := "7b0c4f4e-8d1a-4a57-9f0e-2f6f3a1f9c11" |}.

(** [rawContent] of the smart prompt handler. *)
Definition raw_content (message_content : option string) : string :=
  if present message_content then show message_content else "{}".

(** The chunks the text blocks give, and the snippets of the organic
    results. *)
Definition block_chunks (data : serp_data) : list string :=
  match text_blocks data with
  | Items bs => compact (map block_chunk bs)
  | _ => []
  end.

Definition snippets (data : serp_data) : list string :=
  match organic_results data with
  | Items rs => compact (map or_snippet rs)
  | _ => []
  end.

(** An answer of the classic search: five organic results, no text block. *)
Definition organic_hit (n : string) : organic_result :=
  {| or_title := Some ("Result " ++ n);
     or_link := Some ("https://example.org/" ++ n);
     or_favicon := None;
     or_snippet := Some ("Snippet " ++ n) |}.

Definition organic_answer : serp_data :=
  {| error := None;
     text_blocks := Absent;
     organic_results :=
       Items [organic_hit "1"; organic_hit "2"; organic_hit "3"; organic_hit "4";
              organic_hit "5"; organic_hit "6"];
     references := Items [] |}.

Definition organic_world : world :=
  sample_world (Some "hf_token") (Some "serp_key") false
    (fun _ => Completion (Some "Six results.") None) quiet_stream
    (fun _ => Some organic_answer) (fun _ => false).

(** What the search helper makes of [organic_answer]. *)
Definition organic_found : search_result :=
  {| context :=
       String.concat (nl ++ nl)
         ["Snippet 1"; "Snippet 2"; "Snippet 3"; "Snippet 4"; "Snippet 5"; "Snippet 6"];
     sources :=
       map organic_source
         [organic_hit "1"; organic_hit "2"; organic_hit "3"; organic_hit "4";
          organic_hit "5"] |}.

(** The constraints of schema.sql: [chats.id] is a primary key, and
    [messages.chat_id] references a chat. *)
Definition schema_holds (d : database) : Prop :=
  NoDup (chats_table d) /\
  forall r, In r (messages_table d) -> In (row_chat_id r) (chats_table d).

(** The row [r] is a turn of the exchange of [req] and [answer]: a
    POST /chat answered under the chat id of the row, whose message the row
    holds as the user's turn, or whose response it holds as the assistant's.
    These are the two roles the check of schema.sql admits. *)
Definition turn_of (r : message_row) (req : request) (answer : response) : Prop :=
  exists body reply use,
    req = PostChat body /\
    answer = ChatReply (row_chat_id r) reply use /\
    ((row_role r = "user" /\ message body = Some (row_content r)) \/
     (row_role r = "assistant" /\ row_content r = reply)).

(** The sum of the token counts of the texts. *)
Definition token_sum (w : world) (texts : list string) : Z :=
  fold_right (fun text total => countTokens w text + total) 0 texts.

(** The rows of one chat, oldest first. *)
Definition history_of (id : string) (st : store) : list message_row :=
  filter (fun r => String.eqb (row_chat_id r) id) (messages_table (db st)).

(** The turns of stored rows, as the model is given them. *)
Definition turns (rows : list message_row) : list chat_message :=
  map (fun r => {| role := row_role r; content := row_content r |}) rows.

(** The search key is missing, the synthesis model answers from memory. *)
Definition no_search_world : world :=
  sample_world (Some "hf_token") None false
    (fun _ => Completion (Some "From memory: the Kansas City Chiefs.") None)
    quiet_stream (fun _ => None) (fun _ => false).

(** The row POST /chat writes for the user's message. *)
Definition user_row (id text : string) : message_row :=
  {| row_chat_id := id; row_role := "user"; row_content := text |}.

(** The row it writes for the reply. *)
Definition assistant_row (id reply : string) : message_row :=
  {| row_chat_id := id; row_role := "assistant"; row_content := reply |}.

(** A chat id that is well formed but names no chat. *)
Definition stray_body : chat_body :=
  {| chat_id := Some "00000000-0000-4000-8000-000000000000";
     message := Some "Anyone there?"; depth := None; webSearch := false |}.

(** A stream that breaks after two chunks. *)
Definition broken_stream_world : world :=
  sample_world (Some "hf_token") None false (fun _ => Rejects)
    (fun _ => {| chunks := [Some "The answer"; Some " is"]; failure := Some "socket hang up" |})
    (fun _ => None) (fun _ => false).

(** Organic results that are an object instead of an array. *)
Definition malformed_answer : serp_data :=
  {| error := None;
     text_blocks := Absent;
     organic_results := NotArray;
     references := Absent |}.

(** * Properties *)

(** ** The helpers on concrete inputs *)

Example strip_fences_fenced_object :
  strip_fences ("```json" ++ nl ++ "{}" ++ nl ++ "``` ") = "{}".
Proof. reflexivity. Qed.

Example match_braces_is_greedy :
  match_braces "Here: {a: {b}} and } more" = Some "{a: {b}} and }".
Proof. reflexivity. Qed.

Example match_braces_needs_a_closing_brace_after : match_braces "} {" = None.
Proof. reflexivity. Qed.

Example local_id_sample : local_id offline_world = "local-1700000000000".
Proof. reflexivity. Qed.

Example trim_removes_unicode_white_space :
  trim (byte_order_mark ++ " " ++ nl ++ "null" ++ no_break_space
        ++ utf8 [226; 128; 168; 227; 128; 128]%nat)
  = "null".
Proof. reflexivity. Qed.

Example trim_keeps_inner_white_space :
  trim (" a" ++ no_break_space ++ "b ") = "a" ++ no_break_space ++ "b".
Proof. reflexivity. Qed.

Example strip_fences_behind_a_no_break_space :
  strip_fences (fenced (no_break_space ++ "{}")) = "{}".
Proof. reflexivity. Qed.

Example null_behind_a_byte_order_mark :
  fst (smart_prompt (answering_world (byte_order_mark ++ "null"))
         (Some "Can you please sum two numbers?") empty_store)
  = ServerError "Failed to analyze prompt".
Proof. reflexivity. Qed.

Example js_length_counts_code_units :
  js_length "éééé<|endoftext|>" = 17%nat /\ js_length "🌐" = 2%nat /\
  String.length "éééé<|endoftext|>" = 21%nat.
Proof. repeat split. Qed.

Example countTokens_fallback_sample :
  encode strict_world "éééé<|endoftext|>" = None /\
  countTokens strict_world "éééé<|endoftext|>" = 5.
Proof. split; reflexivity. Qed.

Example search_merges_block_sources :
  fst (performWebSearch kimi_up_world super_bowl empty_store) = Some sample_found.
Proof. reflexivity. Qed.

Example web_reply_sample :
  fst (post_chat kimi_up_world web_body empty_store)
  = ChatReply "local-1700000000000"
      ("The Kansas City Chiefs won." ++ nl ++ nl ++ "---" ++ nl ++ "### 🌐 Sources" ++ nl
       ++ "1. [Super Bowl LVIII - Wikipedia](https://en.wikipedia.org/wiki/Super_Bowl_LVIII)"
       ++ nl ++ "2. [NFL](https://www.nfl.com/super-bowl)" ++ nl)
      (Counted 0 0).
Proof. reflexivity. Qed.

Example first_message_creates_chat :
  fst (post_chat stored_world first_body empty_store)
  = ChatReply "7b0c4f4e-8d1a-4a57-9f0e-2f6f3a1f9c11" "Hello there" (Counted 2 11).
Proof. reflexivity. Qed.

Example unknown_depth_sample : depthInstruction "Huge" = depthInstruction "Short".
Proof. reflexivity. Qed.

(** ** Token counter *)

(** C8: on every text, [countTokens] is the number of tokens of the
    tokenizer's encoding, and when the tokenizer throws it is the least
    integer that is at least a quarter of the text's length, [text.length]
    in UTF-16 code units; the result is never negative. *)
Theorem countTokens_total (w : world) (text : string) :
  0 <= countTokens w text /\
  match encode w text with
  | Some tokens => countTokens w text = Z.of_nat (List.length tokens)
  | None =>
      4 * (countTokens w text - 1) < Z.of_nat (js_length text)
        <= 4 * countTokens w text
  end.
Proof.
  unfold countTokens.
  destruct (encode w text) as [tokens|].
  - split; [lia | reflexivity].
  - pose proof (Z.div_mod (Z.of_nat (js_length text) + 3) 4 ltac:(lia)) as E.
    pose proof (Z.mod_pos_bound (Z.of_nat (js_length text) + 3) 4 ltac:(lia)) as B.
    assert (0 <= (Z.of_nat (js_length text) + 3) / 4)
      by (apply Z.div_pos; lia).
    lia.
Qed.

(** ** Smart prompt *)

Lemma some_eq {A : Type} (a b : A) : Some a = Some b -> a = b.
Proof. intro H. now injection H. Qed.

Lemma robust_parse_unparseable (w : world) (rawContent prompt : string) :
  unparseable w rawContent ->
  robust_parse w rawContent prompt = parse_failure prompt.
Proof.
  intros (H1 & H2 & H3). unfold robust_parse.
  rewrite H1, H2.
  destruct (match_braces rawContent) as [m|] eqn:E; [|reflexivity].
  now rewrite (H3 m eq_refl).
Qed.

(** C1: when the body carries a non-empty prompt and none of the three
    parsing attempts reads the model's raw output, POST /smart-prompt
    answers with [optimizedPrompt] equal to the prompt it was sent. *)
Theorem smart_prompt_unparseable_keeps_prompt
  (w : world) (prompt : string) (message_content : option string)
  (reported : option provider_usage) (st : store) :
  nonempty prompt = true ->
  create_completion w (smart_prompt_request prompt) = Completion message_content reported ->
  unparseable w (if present message_content then show message_content else "{}") ->
  fst (smart_prompt w (Some prompt) st)
  = SmartPrompt (JArr [JStr PARSE_ERROR_ISSUE]) (JStr prompt)
                (countTokens w prompt) (Some (countTokens w prompt)).
Proof.
  intros Hp Hc Hu.
  unfold smart_prompt, bind, record_call, ret; cbn [present show negb].
  rewrite Hp; cbn [negb]. rewrite Hc.
  rewrite (robust_parse_unparseable _ _ _ Hu).
  cbn. unfold js_or; cbn. rewrite Hp. reflexivity.
Qed.

Lemma smart_prompt_unparseable_keeps_prompt_witness :
  fst (smart_prompt chatty_world (Some "Can you please sum two numbers?") empty_store)
  = SmartPrompt (JArr [JStr PARSE_ERROR_ISSUE])
                (JStr "Can you please sum two numbers?") 31 (Some 31).
Proof.
  apply (smart_prompt_unparseable_keeps_prompt chatty_world
           "Can you please sum two numbers?"
           (Some "```json{optimized_prompt: Sum two numbers}```") None empty_store).
  - reflexivity.
  - reflexivity.
  - split; [reflexivity | split; [reflexivity | ]].
    intros m H. vm_compute in H. apply some_eq in H. subst m. reflexivity.
Defined.

(** ** Web search helper *)

Lemma same_link_eq (a b : option string) : same_link a b = true <-> a = b.
Proof.
  destruct a as [x|], b as [y|]; cbn; split; intro H; try congruence; try discriminate.
  - apply String.eqb_eq in H. now subst.
  - injection H as ->. apply String.eqb_refl.
Qed.

Lemma known_link_spec (sources : list source) (l : option string) :
  existsb (fun s => same_link (link s) l) sources = false ->
  ~ In l (map link sources).
Proof.
  intros H Hin. apply in_map_iff in Hin as (s & <- & Hs).
  assert (existsb (fun s0 => same_link (link s0) (link s)) sources = true) as E.
  { apply existsb_exists. exists s. split; [assumption | now apply same_link_eq]. }
  congruence.
Qed.

Lemma merge_sources_spec (blockSources : list source) :
  forall sources,
    exists merged,
      fold_left merge_source blockSources sources = (sources ++ merged)%list /\
      NoDup (map link merged) /\
      (forall s, In s merged -> ~ In (link s) (map link sources)) /\
      ((List.length sources <= 5)%nat -> (List.length (sources ++ merged)%list <= 5)%nat).
Proof.
  induction blockSources as [|bs rest IH]; intros sources; cbn [fold_left].
  - exists []. rewrite app_nil_r. repeat split; auto. constructor.
  - unfold merge_source at 2.
    destruct (existsb (fun s => same_link (link s) (link bs)) sources) eqn:Known;
      cbn [negb andb].
    + apply IH.
    + destruct (List.length sources <? 5)%nat eqn:Room.
      * destruct (IH (sources ++ [bs])%list) as (merged & Hfold & Hnd & Hnew & Hlen).
        exists (bs :: merged). rewrite Hfold, <- app_assoc. cbn [app map].
        split; [reflexivity|]. split; [|split].
        -- constructor; [|assumption].
           intro Hin. apply in_map_iff in Hin as (s & Hl & Hs).
           apply (Hnew s Hs). rewrite map_app, Hl. apply in_or_app. right. now left.
        -- intros s [<-|Hs].
           ++ now apply known_link_spec.
           ++ intro Hin. apply (Hnew s Hs). rewrite map_app. apply in_or_app. now left.
        -- intros _. change (sources ++ bs :: merged)%list with (sources ++ [bs] ++ merged)%list.
           rewrite app_assoc. apply Hlen. rewrite length_app. cbn.
           apply Nat.ltb_lt in Room. lia.
      * apply IH.
Qed.

Lemma organic_sources_length (data : serp_data) (s1 : list source) :
  organic_sources data = Some s1 -> (List.length s1 <= 5)%nat.
Proof.
  unfold organic_sources.
  destruct (organic_results data) as [| |rs]; intro H;
    try discriminate H; apply some_eq in H; subst.
  - cbn. lia.
  - rewrite length_map. apply firstn_le_length.
Qed.

Lemma with_references_length (data : serp_data) (s1 s2 : list source) :
  (List.length s1 <= 5)%nat ->
  with_references data s1 = Some s2 -> (List.length s2 <= 5)%nat.
Proof.
  unfold with_references. intros L.
  destruct ((List.length s1 =? 0)%nat && is_set (references data)).
  - destruct (references data) as [| |rs]; intro H;
      try discriminate H; apply some_eq in H; subst.
    rewrite length_map. apply firstn_le_length.
  - intro H. now apply some_eq in H; subst.
Qed.

Lemma with_block_sources_spec (data : serp_data) (s2 s3 : list source) :
  with_block_sources data s2 = Some s3 ->
  exists merged,
    s3 = (s2 ++ merged)%list /\
    NoDup (map link merged) /\
    (forall s, In s merged -> ~ In (link s) (map link s2)) /\
    ((List.length s2 <= 5)%nat -> (List.length s3 <= 5)%nat).
Proof.
  unfold with_block_sources.
  destruct ((List.length s2 <? 3)%nat && is_set (text_blocks data)).
  - destruct (text_blocks data) as [| |bs]; intro H;
      try discriminate H; apply some_eq in H; subst.
    destruct (merge_sources_spec
                (filter (fun s => present (link s)) (map block_source bs)) s2)
      as (merged & Hfold & Hnd & Hnew & Hlen).
    exists merged. rewrite Hfold. auto.
  - intro H. apply some_eq in H; subst. exists []. rewrite app_nil_r.
    repeat split; auto. constructor.
Qed.

(** C10: whatever the shape of the search answer, a result of
    [performWebSearch] that is not null has a context joined from at most
    fifteen chunks, namely the first fifteen of the chunks read from the
    answer (all of them when there are fewer), and at most five sources; the
    sources the text-block merge adds come after those found by the first
    two strategies, have pairwise different links, and none of them repeats
    a link that was already there. *)
Theorem performWebSearch_result_bounded
  (w : world) (query : string) (st : store) (r : search_result) :
  fst (performWebSearch w query st) = Some r ->
  exists data,
    serp_fetch w query = Some data /\
    (exists all top rest,
        extract_chunks data = Some all /\
        all = (top ++ rest)%list /\
        List.length top = Nat.min 15 (List.length all) /\
        (List.length top <= 15)%nat /\
        context r = String.concat (nl ++ nl) top) /\
    (List.length (sources r) <= 5)%nat /\
    (exists found merged,
        and_then (organic_sources data) (with_references data) = Some found /\
        sources r = (found ++ merged)%list /\
        NoDup (map link merged) /\
        (forall s, In s merged -> ~ In (link s) (map link found))).
Proof.
  unfold performWebSearch, bind, record_call, ret.
  destruct (present (SERP_API_KEY w)); cbn [negb fst]; [|discriminate].
  destruct (serp_fetch w query) as [data|]; cbn [and_then]; [|discriminate].
  unfold read_results.
  destruct (present (error data)); [discriminate|].
  destruct (extract_chunks data) as [chunks|] eqn:Ec; cbn [and_then]; [|discriminate].
  destruct (organic_sources data) as [s1|] eqn:E1; cbn [and_then]; [|discriminate].
  destruct (with_references data s1) as [s2|] eqn:E2; cbn [and_then]; [|discriminate].
  destruct (with_block_sources data s2) as [s3|] eqn:E3; cbn [and_then]; [|discriminate].
  intro H. apply some_eq in H; subst. cbn [context sources].
  pose proof (organic_sources_length _ _ E1) as L1.
  pose proof (with_references_length _ _ _ L1 E2) as L2.
  destruct (with_block_sources_spec _ _ _ E3) as (merged & -> & Hnd & Hnew & Hlen).
  exists data. split; [reflexivity|]. split; [|split].
  - exists chunks, (firstn 15 chunks), (skipn 15 chunks).
    split; [exact Ec|]. split; [symmetry; apply firstn_skipn|].
    split; [apply length_firstn|]. split; [apply firstn_le_length | reflexivity].
  - auto.
  - exists s2, merged. rewrite E1. cbn [and_then]. auto.
Qed.

Lemma performWebSearch_result_bounded_witness :
  exists data,
    serp_fetch kimi_up_world super_bowl = Some data /\
    (exists all top rest,
        extract_chunks data = Some all /\
        all = (top ++ rest)%list /\
        List.length top = Nat.min 15 (List.length all) /\
        (List.length top <= 15)%nat /\
        context sample_found = String.concat (nl ++ nl) top) /\
    (List.length (sources sample_found) <= 5)%nat /\
    (exists found merged,
        and_then (organic_sources data) (with_references data) = Some found /\
        sources sample_found = (found ++ merged)%list /\
        NoDup (map link merged) /\
        (forall s, In s merged -> ~ In (link s) (map link found))).
Proof.
  apply (performWebSearch_result_bounded kimi_up_world super_bowl empty_store sample_found).
  reflexivity.
Defined.

(** ** How each step runs *)

Lemma performWebSearch_run (w : world) (query : string) (st : store) :
  performWebSearch w query st
  = (fst (performWebSearch w query empty_store),
     {| db := db st; calls := (calls st ++ searched w query)%list |}).
Proof.
  unfold performWebSearch, searched, bind, record_call, ret.
  destruct (present (SERP_API_KEY w)); cbn.
  - reflexivity.
  - rewrite app_nil_r. now destruct st.
Qed.

Lemma performWebSearch_any_store (w : world) (query : string) (st st' : store) :
  fst (performWebSearch w query st) = fst (performWebSearch w query st').
Proof. now rewrite (performWebSearch_run w query st), (performWebSearch_run w query st'). Qed.

Lemma handleWebSearchFlow_run (w : world) (query : string) (depth : option string) (st : store) :
  let found := fst (performWebSearch w query empty_store) in
  let req := web_search_request query (context_of found) (default_to "Short" depth) in
  handleWebSearchFlow w query depth st
  = (web_answer (create_completion w req) (sources_of found),
     {| db := db st;
        calls := (calls st ++ searched w query ++ [Completes req])%list |}).
Proof.
  cbv zeta. unfold handleWebSearchFlow, bind.
  rewrite performWebSearch_run. unfold record_call, ret. cbn.
  now rewrite <- app_assoc.
Qed.

Lemma generateResponse_run (w : world) (prompt : list chat_message) (depth : option string)
  (st : store) :
  let d := default_to "Short" depth in
  generateResponse w prompt depth st
  = (if present (HF_API_KEY w)
     then stream_reply (create_stream w (generate_request w prompt d))
     else MISSING_TOKEN_REPLY,
     {| db := db st; calls := (calls st ++ streamed w prompt d)%list |}).
Proof.
  cbv zeta. unfold generateResponse, streamed, bind, record_call, ret.
  destruct (present (HF_API_KEY w)); cbn.
  - reflexivity.
  - rewrite app_nil_r. now destruct st.
Qed.

Lemma runLangGraph_run (w : world) (history : list chat_message) (depth : option string)
  (st : store) :
  let d := graph_depth depth in
  let reply := fst (generateResponse w (formatted history) (Some d) st) in
  runLangGraph w history depth st
  = ((reply, Counted (input_tokens_of w history) (countTokens w reply)),
     snd (generateResponse w (formatted history) (Some d) st)).
Proof.
  cbv zeta. unfold runLangGraph, invoke, callModel, bind, ret, graph_depth, input_tokens_of.
  cbn [gs_messages gs_depth app].
  rewrite map_map.
  assert (map (fun x => {| role := if String.eqb
                 (getType (if String.eqb (role x) "user"
                           then HumanMessage (content x)
                           else AIMessage (content x) None)) "human"
               then "user" else "assistant";
             content := lc_content (if String.eqb (role x) "user"
                           then HumanMessage (content x)
                           else AIMessage (content x) None) |}) history
          = formatted history) as ->.
  { unfold formatted. apply map_ext. intro x.
    destruct (String.eqb (role x) "user"); reflexivity. }
  destruct (generateResponse w (formatted history) _ st) as [reply st'].
  cbn [fst snd gs_messages]. rewrite last_last. reflexivity.
Qed.

Lemma chosen_depth_nonempty (body : chat_body) : nonempty (chosen_depth body) = true.
Proof.
  unfold chosen_depth. destruct (depth body) as [[|c d]|]; reflexivity.
Qed.

Lemma graph_depth_chosen (body : chat_body) :
  graph_depth (Some (chosen_depth body)) = chosen_depth body.
Proof.
  unfold graph_depth. cbn [default_to]. now rewrite chosen_depth_nonempty.
Qed.

Lemma respond_run (w : world) (body : chat_body) (text : string)
  (conversation : list chat_message) (st : store) :
  respond w body text conversation st
  = if webSearch body
    then (web_answer (create_completion w (kimi_request w text (chosen_depth body)))
                     (sources_of (fst (performWebSearch w text empty_store))),
          {| db := db st;
             calls := (calls st ++ searched w text
                       ++ [Completes (kimi_request w text (chosen_depth body))])%list |})
    else let reply :=
           if present (HF_API_KEY w)
           then stream_reply (create_stream w
                  (generate_request w (formatted conversation) (chosen_depth body)))
           else MISSING_TOKEN_REPLY in
         ((reply, Counted (input_tokens_of w conversation) (countTokens w reply)),
          {| db := db st;
             calls := (calls st
                       ++ streamed w (formatted conversation) (chosen_depth body))%list |}).
Proof.
  unfold respond. destruct (webSearch body).
  - rewrite handleWebSearchFlow_run. reflexivity.
  - rewrite runLangGraph_run, generateResponse_run, graph_depth_chosen. reflexivity.
Qed.

Lemma respond_keeps_db (w : world) (body : chat_body) (text : string)
  (conversation : list chat_message) (st : store) :
  db (snd (respond w body text conversation st)) = db st.
Proof.
  unfold respond. destruct (webSearch body).
  - rewrite handleWebSearchFlow_run. reflexivity.
  - rewrite runLangGraph_run, generateResponse_run. reflexivity.
Qed.

Lemma insert_chat_run (w : world) (st : store) :
  insert_chat w st
  = if negb (db_fault w CreateChat) && negb (known_chat (uuid_generate_v4 w) st)
    then (Some (uuid_generate_v4 w), with_chat (uuid_generate_v4 w) st)
    else (None, st).
Proof.
  unfold insert_chat, known_chat, with_chat, bind, read_db, update_db, ret.
  destruct (db_fault w CreateChat); cbn; [reflexivity|].
  destruct (existsb _ _); reflexivity.
Qed.

Lemma chat_session_run (w : world) (cid : option string) (st : store) :
  chat_session w cid st
  = if present cid then (show cid, st)
    else if supabase w && negb (db_fault w CreateChat)
            && negb (known_chat (uuid_generate_v4 w) st)
         then (uuid_generate_v4 w, with_chat (uuid_generate_v4 w) st)
         else (local_id w, st).
Proof.
  unfold chat_session, insert_chat, known_chat, with_chat, bind, read_db, update_db, ret.
  destruct (present cid); [reflexivity|].
  destruct (supabase w); [|reflexivity].
  destruct (db_fault w CreateChat); cbn; [reflexivity|].
  destruct (existsb _ _); reflexivity.
Qed.

Lemma chat_session_messages (w : world) (cid : option string) (st : store) :
  messages_table (db (snd (chat_session w cid st))) = messages_table (db st).
Proof.
  rewrite chat_session_run.
  destruct (present cid); [reflexivity|].
  destruct (supabase w && negb (db_fault w CreateChat)
            && negb (known_chat (uuid_generate_v4 w) st)); reflexivity.
Qed.

Lemma chat_session_calls (w : world) (cid : option string) (st : store) :
  calls (snd (chat_session w cid st)) = calls st.
Proof.
  rewrite chat_session_run.
  destruct (present cid); [reflexivity|].
  destruct (supabase w && negb (db_fault w CreateChat)
            && negb (known_chat (uuid_generate_v4 w) st)); reflexivity.
Qed.

Lemma known_chat_chats (id : string) (st st' : store) :
  chats_table (db st') = chats_table (db st) -> known_chat id st' = known_chat id st.
Proof. unfold known_chat. now intros ->. Qed.

Lemma known_chat_In (id : string) (st : store) :
  known_chat id st = true <-> In id (chats_table (db st)).
Proof.
  unfold known_chat. rewrite existsb_exists. split.
  - intros (x & Hx & E). apply String.eqb_eq in E. now subst.
  - intro H. exists id. split; [assumption | apply String.eqb_refl].
Qed.

Lemma save_message_run (w : world) (site : db_call) (id r c : string) (st : store) :
  save_message w site id r c st
  = (tt, if supabase w && negb (db_fault w site) && known_chat id st
         then with_message {| row_chat_id := id; row_role := r; row_content := c |} st
         else st).
Proof.
  unfold save_message, insert_message, known_chat, with_message, bind, read_db, update_db, ret.
  destruct (supabase w); [|reflexivity].
  destruct (db_fault w site); cbn; [reflexivity|].
  destruct (existsb _ _); reflexivity.
Qed.

Lemma save_message_db (w : world) (site : db_call) (id r c : string) (st : store) :
  db (snd (save_message w site id r c st))
  = {| chats_table := chats_table (db st);
       messages_table :=
         (messages_table (db st)
          ++ saved w site id st {| row_chat_id := id; row_role := r; row_content := c |})%list |}.
Proof.
  rewrite save_message_run. unfold saved. cbn [snd].
  destruct (supabase w && negb (db_fault w site) && known_chat id st); cbn.
  - reflexivity.
  - rewrite app_nil_r. now destruct (db st).
Qed.

Lemma save_message_calls (w : world) (site : db_call) (id r c : string) (st : store) :
  calls (snd (save_message w site id r c st)) = calls st.
Proof.
  rewrite save_message_run. cbn [snd].
  destruct (supabase w && negb (db_fault w site) && known_chat id st); reflexivity.
Qed.

Lemma load_context_run (w : world) (id text : string) (st : store) :
  load_context w id text st
  = (if supabase w && negb (db_fault w LoadHistory)
     then map (fun r => {| role := row_role r; content := row_content r |})
              (filter (fun r => String.eqb (row_chat_id r) id) (messages_table (db st)))
     else [ {| role := "user"; content := text |} ],
     st).
Proof.
  unfold load_context, select_messages, bind, read_db, ret.
  destruct (supabase w); [|reflexivity].
  destruct (db_fault w LoadHistory); reflexivity.
Qed.

Lemma post_chat_steps (w : world) (body : chat_body) (st : store) :
  present (message body) = true ->
  let text := show (message body) in
  let s1 := chat_session w (chat_id body) st in
  let s2 := save_message w InsertUserMessage (fst s1) "user" text (snd s1) in
  let s3 := load_context w (fst s1) text (snd s2) in
  let s4 := respond w body text (fst s3) (snd s3) in
  let s5 := save_message w InsertAssistantMessage (fst s1) "assistant"
                         (fst (fst s4)) (snd s4) in
  post_chat w body st = (ChatReply (fst s1) (fst (fst s4)) (snd (fst s4)), snd s5).
Proof.
  intro Hm. cbv zeta. unfold post_chat, bind, respond, chosen_depth. rewrite Hm. cbn [negb].
  destruct (chat_session w (chat_id body) st) as [id st1]. cbn [fst snd].
  destruct (save_message w InsertUserMessage id _ _ st1) as [[] st2]. cbn [fst snd].
  destruct (load_context w id _ st2) as [conv st3]. cbn [fst snd].
  match goal with
  | |- context [(if webSearch body then ?f else ?g) st3] =>
      destruct ((if webSearch body then f else g) st3) as [[reply use] st4]
  end.
  cbn [fst snd].
  destruct (save_message w InsertAssistantMessage id _ reply st4) as [[] st5].
  reflexivity.
Qed.

Lemma post_chat_db (w : world) (body : chat_body) (st : store) :
  present (message body) = true ->
  let text := show (message body) in
  let s1 := chat_session w (chat_id body) st in
  exists reply use,
    fst (post_chat w body st) = ChatReply (fst s1) reply use /\
    chats_table (db (snd (post_chat w body st))) = chats_table (db (snd s1)) /\
    messages_table (db (snd (post_chat w body st)))
    = (messages_table (db (snd s1))
       ++ saved w InsertUserMessage (fst s1) (snd s1)
            {| row_chat_id := fst s1; row_role := "user"; row_content := text |}
       ++ saved w InsertAssistantMessage (fst s1) (snd s1)
            {| row_chat_id := fst s1; row_role := "assistant"; row_content := reply |})%list.
Proof.
  intro Hm. cbv zeta. rewrite (post_chat_steps w body st Hm). cbv zeta. cbn [fst snd].
  set (s1 := chat_session w (chat_id body) st).
  set (s2 := save_message w InsertUserMessage (fst s1) "user" (show (message body)) (snd s1)).
  set (s3 := load_context w (fst s1) (show (message body)) (snd s2)).
  set (s4 := respond w body (show (message body)) (fst s3) (snd s3)).
  exists (fst (fst s4)), (snd (fst s4)). split; [reflexivity|].
  assert (db (snd s3) = db (snd s2)) as E3
    by (unfold s3; now rewrite load_context_run).
  assert (db (snd s4) = db (snd s2)) as E4
    by (unfold s4; rewrite respond_keeps_db; exact E3).
  assert (chats_table (db (snd s2)) = chats_table (db (snd s1))) as E2
    by (unfold s2; now rewrite save_message_db).
  rewrite save_message_db. cbn [chats_table messages_table].
  rewrite E4, E2. split; [reflexivity|].
  unfold s2 at 1. rewrite save_message_db. cbn [messages_table].
  rewrite <- app_assoc. do 2 f_equal.
  unfold saved. rewrite (known_chat_chats (fst s1) (snd s1) (snd s4)); [reflexivity|].
  now rewrite E4.
Qed.

(** The reply of POST /chat and the calls it makes, in terms of the flow it
    is routed to. *)
Lemma post_chat_reply (w : world) (body : chat_body) (st : store) :
  present (message body) = true ->
  exists id conversation st3,
    calls st3 = calls st /\
    fst (post_chat w body st)
    = ChatReply id
        (fst (fst (respond w body (show (message body)) conversation st3)))
        (snd (fst (respond w body (show (message body)) conversation st3))) /\
    calls (snd (post_chat w body st))
    = calls (snd (respond w body (show (message body)) conversation st3)).
Proof.
  intro Hm. rewrite (post_chat_steps w body st Hm). cbv zeta. cbn [fst snd].
  eexists _, _, _. split; [|split; [reflexivity|]].
  - rewrite load_context_run. cbn [snd].
    now rewrite save_message_calls, chat_session_calls.
  - now rewrite save_message_calls.
Qed.

Lemma post_chat_always_replies (w : world) (body : chat_body) (st : store) :
  present (message body) = true ->
  exists id reply use, fst (post_chat w body st) = ChatReply id reply use.
Proof.
  intro Hm. destruct (post_chat_db w body st Hm) as (reply & use & E & _).
  eauto.
Qed.

(** ** Chat identity and history *)

(** C3: a POST /chat with a message and no [chat_id] answers with a newly
    allocated identifier in [chat_id]: the id of the chat row the database
    created, which no chat had before, or, when there is no database client
    or the insert fails, the local fallback identifier. *)
Theorem new_chat_id_allocated (w : world) (body : chat_body) (st : store) :
  present (message body) = true ->
  present (chat_id body) = false ->
  exists id reply use,
    fst (post_chat w body st) = ChatReply id reply use /\
    ((supabase w = true /\
      fst (insert_chat w st) = Some id /\
      ~ In id (chats_table (db st)) /\
      chats_table (db (snd (post_chat w body st))) = (chats_table (db st) ++ [id])%list)
     \/
     ((supabase w = false \/ fst (insert_chat w st) = None) /\
      id = local_id w /\
      chats_table (db (snd (post_chat w body st))) = chats_table (db st))).
Proof.
  intros Hm Hc.
  destruct (post_chat_db w body st Hm) as (reply & use & E1 & E2 & _).
  cbv zeta in *. rewrite chat_session_run, Hc in *.
  rewrite insert_chat_run.
  destruct (supabase w) eqn:Hs; cbn [andb] in *.
  - destruct (db_fault w CreateChat); cbn [negb andb] in *.
    + exists (local_id w), reply, use. split; [exact E1|]. right. auto.
    + destruct (known_chat (uuid_generate_v4 w) st) eqn:K; cbn [negb fst snd] in *.
      * exists (local_id w), reply, use. split; [exact E1|]. right. auto.
      * exists (uuid_generate_v4 w), reply, use. split; [exact E1|]. left.
        repeat split; auto.
        intro Hin. apply known_chat_In in Hin. congruence.
  - exists (local_id w), reply, use. split; [exact E1|]. right. auto.
Qed.

Lemma new_chat_id_allocated_witness :
  exists id reply use,
    fst (post_chat stored_world first_body empty_store) = ChatReply id reply use.
Proof.
  destruct (new_chat_id_allocated stored_world first_body empty_store eq_refl eq_refl)
    as (id & reply & use & H & _).
  exists id, reply, use. exact H.
Defined.

Lemma smart_prompt_keeps_db (w : world) (prompt : option string) (st : store) :
  db (snd (smart_prompt w prompt st)) = db st.
Proof.
  unfold smart_prompt, bind, record_call, ret.
  destruct (present prompt); cbn [negb]; [|reflexivity].
  destruct (create_completion w _); [reflexivity|].
  repeat match goal with
         | |- context [match get_prop ?v ?k with _ => _ end] => destruct (get_prop v k)
         end; reflexivity.
Qed.

Lemma get_chat_keeps_store (w : world) (id : string) (st : store) :
  snd (get_chat w id st) = st.
Proof.
  unfold get_chat, select_messages, bind, read_db, ret.
  destruct (supabase w); cbn [negb]; [|reflexivity].
  destruct (db_fault w FetchMessages); reflexivity.
Qed.

Lemma get_chats_keeps_store (w : world) (st : store) :
  snd (get_chats w st) = st.
Proof.
  unfold get_chats, select_chats, bind, read_db, ret.
  destruct (supabase w); cbn [negb]; [|reflexivity].
  destruct (db_fault w ListChats); reflexivity.
Qed.

Lemma post_chat_appends (w : world) (body : chat_body) (st : store) :
  exists added,
    messages_table (db (snd (post_chat w body st)))
    = (messages_table (db st) ++ added)%list.
Proof.
  destruct (present (message body)) eqn:Hm.
  - destruct (post_chat_db w body st Hm) as (reply & use & _ & _ & E).
    rewrite E, chat_session_messages. eexists. reflexivity.
  - exists []. unfold post_chat. rewrite Hm. cbn. now rewrite app_nil_r.
Qed.

Lemma serve_appends (w : world) (req : request) (st : store) :
  exists added,
    messages_table (db (snd (serve w req st)))
    = (messages_table (db st) ++ added)%list.
Proof.
  destruct req as [prompt|body|id|]; cbn [serve].
  - exists []. now rewrite smart_prompt_keeps_db, app_nil_r.
  - apply post_chat_appends.
  - exists []. now rewrite get_chat_keeps_store, app_nil_r.
  - exists []. now rewrite get_chats_keeps_store, app_nil_r.
Qed.

Lemma serve_all_appends (session : list (world * request)) :
  forall st, exists added,
    messages_table (db (snd (serve_all session st)))
    = (messages_table (db st) ++ added)%list.
Proof.
  induction session as [|[w req] rest IH]; intro st; cbn [serve_all].
  - exists []. cbn. now rewrite app_nil_r.
  - destruct (serve_appends w req st) as (a1 & E1).
    destruct (serve w req st) as [r st1]. cbn [snd] in E1.
    destruct (IH st1) as (a2 & E2).
    destruct (serve_all rest st1) as [rs st2]. cbn [snd] in *.
    exists (a1 ++ a2)%list. now rewrite E2, E1, app_assoc.
Qed.

(** C4: a POST /chat that carries the id of an existing chat, on a database
    that accepts the two inserts, adds exactly the user message and the
    assistant's reply, in that order, after the rows already stored; and
    whatever the requests of a session, the rows stored before it are still
    there afterwards, unchanged and in place, followed by the rows added. *)
Theorem chat_history_append_only
  (w : world) (body : chat_body) (st : store) (id text : string) :
  chat_id body = Some id -> nonempty id = true ->
  In id (chats_table (db st)) ->
  message body = Some text -> nonempty text = true ->
  supabase w = true ->
  db_fault w InsertUserMessage = false ->
  db_fault w InsertAssistantMessage = false ->
  (exists reply use,
      fst (post_chat w body st) = ChatReply id reply use /\
      messages_table (db (snd (post_chat w body st)))
      = (messages_table (db st)
         ++ [ {| row_chat_id := id; row_role := "user"; row_content := text |};
              {| row_chat_id := id; row_role := "assistant"; row_content := reply |} ])%list) /\
  (forall session st0, exists added,
      messages_table (db (snd (serve_all session st0)))
      = (messages_table (db st0) ++ added)%list).
Proof.
  intros Hid Hne Hin Hmsg Htext Hdb Hf1 Hf2.
  split; [|intros; apply serve_all_appends].
  assert (present (message body) = true) as Hm by (rewrite Hmsg; exact Htext).
  destruct (post_chat_db w body st Hm) as (reply & use & E1 & _ & E2).
  cbv zeta in *.
  assert (chat_session w (chat_id body) st = (id, st)) as Es.
  { rewrite chat_session_run, Hid. cbn [present show]. now rewrite Hne. }
  rewrite Es in *. cbn [fst snd] in *.
  exists reply, use. split; [exact E1|].
  rewrite E2. unfold saved.
  apply known_chat_In in Hin. rewrite Hdb, Hf1, Hf2, Hin, Hmsg. reflexivity.
Qed.

Lemma chat_history_append_only_witness :
  exists reply use,
    fst (post_chat stored_world follow_up_body one_chat_store)
    = ChatReply "7b0c4f4e-8d1a-4a57-9f0e-2f6f3a1f9c11" reply use /\
    messages_table (db (snd (post_chat stored_world follow_up_body one_chat_store)))
    = (messages_table (db one_chat_store)
       ++ [ {| row_chat_id := "7b0c4f4e-8d1a-4a57-9f0e-2f6f3a1f9c11";
               row_role := "user"; row_content := "And then?" |};
            {| row_chat_id := "7b0c4f4e-8d1a-4a57-9f0e-2f6f3a1f9c11";
               row_role := "assistant"; row_content := reply |} ])%list.
Proof.
  apply (chat_history_append_only stored_world follow_up_body one_chat_store
           "7b0c4f4e-8d1a-4a57-9f0e-2f6f3a1f9c11" "And then?").
  - reflexivity.
  - reflexivity.
  - left. reflexivity.
  - reflexivity.
  - reflexivity.
  - reflexivity.
  - reflexivity.
  - reflexivity.
Defined.

(** C7: without a database client, or when the database call fails, the
    endpoints still answer: a chat without id gets the identifier "local-"
    followed by the timestamp, GET /chat/:id and GET /chats answer with an
    empty list, and the context of POST /chat is the single message of the
    request, which is answered as usual. *)
Theorem database_failure_degrades (w : world) (st : store) :
  (forall body,
      present (message body) = true -> present (chat_id body) = false ->
      supabase w = false \/ db_fault w CreateChat = true ->
      exists reply use,
        fst (post_chat w body st)
        = ChatReply ("local-" ++ string_of_Z (Date_now w)) reply use) /\
  (forall id,
      supabase w = false \/ db_fault w FetchMessages = true ->
      fst (get_chat w id st) = MessageList []) /\
  (supabase w = false \/ db_fault w ListChats = true ->
   fst (get_chats w st) = ChatList []) /\
  (forall body text,
      message body = Some text -> nonempty text = true ->
      supabase w = false \/ db_fault w LoadHistory = true ->
      (forall id st', fst (load_context w id text st')
                      = [ {| role := "user"; content := text |} ]) /\
      exists id reply use, fst (post_chat w body st) = ChatReply id reply use).
Proof.
  split; [|split; [|split]].
  - intros body Hm Hc Hdb.
    destruct (post_chat_db w body st Hm) as (reply & use & E1 & _).
    cbv zeta in E1. rewrite chat_session_run, Hc in E1.
    exists reply, use. rewrite E1. f_equal.
    destruct Hdb as [-> | Hf]; [reflexivity|].
    rewrite Hf. now destruct (supabase w).
  - intros id Hdb. unfold get_chat, select_messages, bind, read_db, ret.
    destruct Hdb as [-> | Hf]; [reflexivity|].
    rewrite Hf. now destruct (supabase w).
  - intros Hdb. unfold get_chats, select_chats, bind, read_db, ret.
    destruct Hdb as [-> | Hf]; [reflexivity|].
    rewrite Hf. now destruct (supabase w).
  - intros body text Hmsg Htext Hdb. split.
    + intros id st'. rewrite load_context_run. cbn [fst].
      destruct Hdb as [-> | Hf]; [reflexivity|].
      rewrite Hf. now destruct (supabase w).
    + apply post_chat_always_replies. now rewrite Hmsg.
Qed.

Lemma database_failure_degrades_witness :
  (exists reply use,
      fst (post_chat offline_world first_body empty_store)
      = ChatReply "local-1700000000000" reply use) /\
  fst (get_chat offline_world "7b0c4f4e-8d1a-4a57-9f0e-2f6f3a1f9c11" empty_store)
  = MessageList [] /\
  fst (get_chats offline_world empty_store) = ChatList [] /\
  fst (load_context offline_world "local-1700000000000" "Hi" empty_store)
  = [ {| role := "user"; content := "Hi" |} ].
Proof.
  destruct (database_failure_degrades offline_world empty_store) as (H1 & H2 & H3 & H4).
  split; [|split; [|split]].
  - apply (H1 first_body); [reflexivity | reflexivity | left; reflexivity].
  - apply H2. left. reflexivity.
  - apply H3. left. reflexivity.
  - apply (H4 first_body "Hi"); [reflexivity | reflexivity | left; reflexivity].
Defined.

(** ** Failing model calls *)

(** C6: when a call that POST /chat makes to a model fails (the synthesis
    call of the web search flow rejects, or the streamed call of the
    standard flow ends in an error), the request is still answered with a
    chat reply, whose [response] is the error text written for that flow:
    "Error generating web search response." with no usage for the synthesis
    call, and "Error calling AI Model: ", the error's message and
    ". Please check your API key and connection." for the streamed call. *)
Theorem model_failure_becomes_reply
  (w : world) (body : chat_body) (st : store) (made : list event) (e : event) :
  calls (snd (post_chat w body st)) = (calls st ++ made)%list ->
  In e made ->
  call_fails w e ->
  exists id reply use,
    fst (post_chat w body st) = ChatReply id reply use /\
    match e with
    | Completes _ => reply = "Error generating web search response." /\ use = NoUsage
    | Streams req =>
        exists message,
          failure (create_stream w req) = Some message /\
          reply = "Error calling AI Model: " ++ message
                  ++ ". Please check your API key and connection." /\
          nonempty reply = true
    | Searches _ => False
    end.
Proof.
  intros Hcalls Hin Hfail.
  destruct (present (message body)) eqn:Hm.
  - destruct (post_chat_reply w body st Hm) as (id & conv & st3 & E3 & Er & Ec).
    rewrite Ec in Hcalls. rewrite Er. clear Er Ec.
    rewrite respond_run in *.
    destruct (webSearch body); cbv zeta in *; cbn [fst snd calls] in *;
      rewrite E3 in Hcalls; apply app_inv_head in Hcalls; subst made.
    + apply in_app_or in Hin as [Hin|[<-|[]]].
      * unfold searched in Hin.
        destruct (present (SERP_API_KEY w)); [|destruct Hin].
        destruct Hin as [<-|[]]. destruct Hfail.
      * cbn in Hfail. rewrite Hfail. cbn [web_answer fst snd].
        eexists _, _, _. split; [reflexivity|]. split; reflexivity.
    + unfold streamed in Hin.
      destruct (present (HF_API_KEY w)); [|destruct Hin].
      destruct Hin as [<-|[]]. cbn in Hfail.
      eexists _, _, _. split; [reflexivity|].
      unfold stream_reply.
      destruct (failure (create_stream w _)) as [message|]; [|congruence].
      exists message. repeat split; reflexivity.
  - unfold post_chat in Hcalls. rewrite Hm in Hcalls. cbn in Hcalls.
    rewrite <- (app_nil_r (calls st)) in Hcalls at 1.
    apply app_inv_head in Hcalls. subst made. destruct Hin.
Qed.

Lemma model_failure_becomes_reply_witness :
  (exists id reply use,
      fst (post_chat kimi_down_world web_body empty_store) = ChatReply id reply use /\
      reply = "Error generating web search response." /\ use = NoUsage) /\
  (exists id reply use,
      fst (post_chat offline_world first_body empty_store) = ChatReply id reply use /\
      exists message,
        failure (create_stream offline_world
                   (generate_request offline_world [ {| role := "user"; content := "Hi" |} ]
                                     "Medium"))
        = Some message /\
        reply = "Error calling AI Model: " ++ message
                ++ ". Please check your API key and connection." /\
        nonempty reply = true).
Proof.
  split.
  - apply (model_failure_becomes_reply kimi_down_world web_body empty_store
             [Searches super_bowl;
              Completes (kimi_request kimi_down_world super_bowl "Short")]
             (Completes (kimi_request kimi_down_world super_bowl "Short"))).
    + reflexivity.
    + right. left. reflexivity.
    + reflexivity.
  - apply (model_failure_becomes_reply offline_world first_body empty_store
             [Streams (generate_request offline_world
                         [ {| role := "user"; content := "Hi" |} ] "Medium")]
             (Streams (generate_request offline_world
                         [ {| role := "user"; content := "Hi" |} ] "Medium"))).
    + reflexivity.
    + left. reflexivity.
    + discriminate.
Defined.

(** ** Replies of the web search flow *)

Lemma string_app_assoc (a b c : string) : ((a ++ b) ++ c = a ++ (b ++ c))%string.
Proof. induction a as [|x a IH]; cbn; [reflexivity | now rewrite IH]. Qed.

Lemma ends_with_unfold (suffix s : string) :
  ends_with suffix s
  = String.eqb s suffix
    || match s with
       | EmptyString => false
       | String _ rest => ends_with suffix rest
       end.
Proof. destruct s; reflexivity. Qed.

Lemma ends_with_complete (suffix head : string) :
  ends_with suffix (head ++ suffix) = true.
Proof.
  induction head as [|c head IH]; cbn [append]; rewrite ends_with_unfold.
  - now rewrite String.eqb_refl.
  - rewrite IH. apply orb_true_r.
Qed.

Lemma append_sources_numbered (sources : list source) :
  forall response i,
    append_sources response i sources
    = (response ++ numbered_links (S i) sources)%string.
Proof.
  induction sources as [|s rest IH]; intros response i; cbn [append_sources numbered_links].
  - clear. induction response as [|c r IH]; cbn; [reflexivity | now rewrite <- IH].
  - rewrite IH. rewrite Nat2Z.inj_succ.
    replace (Z.succ (Z.of_nat i)) with (Z.of_nat i + 1) by lia.
    now rewrite !string_app_assoc.
Qed.

Lemma web_answer_sources (message_content : option string)
  (reported : option provider_usage) (sources : list source) :
  sources <> [] ->
  exists head,
    fst (web_answer (Completion message_content reported) sources)
    = (head ++ sources_section sources)%string.
Proof.
  intro Hs. cbn [web_answer fst].
  destruct sources as [|s rest]; [congruence|]. cbn [List.length Nat.ltb Nat.leb].
  eexists. rewrite append_sources_numbered. unfold sources_section.
  now rewrite string_app_assoc.
Qed.

(** C2, as the code has it: a POST /chat with a message and [webSearch] set
    is answered by the web search flow, and makes no call of the standard
    flow; when the search yields at least one source and the synthesis call
    returns, the reply ends with the sources section, one numbered markdown
    link per source. *)
Theorem web_search_reply_lists_sources
  (w : world) (body : chat_body) (st : store) (query : string) :
  webSearch body = true ->
  message body = Some query ->
  nonempty query = true ->
  (exists id,
      fst (post_chat w body st)
      = ChatReply id
          (fst (fst (handleWebSearchFlow w query (Some (chosen_depth body)) st)))
          (snd (fst (handleWebSearchFlow w query (Some (chosen_depth body)) st)))) /\
  (forall req, In (Streams req) (calls (snd (post_chat w body st))) ->
               In (Streams req) (calls st)) /\
  (forall r message_content reported,
      fst (performWebSearch w query st) = Some r ->
      sources r <> [] ->
      create_completion w
        (web_search_request query (context_of (Some r)) (chosen_depth body))
      = Completion message_content reported ->
      exists id use head,
        fst (post_chat w body st)
        = ChatReply id (head ++ sources_section (sources r)) use).
Proof.
  intros Hweb Hmsg Hq.
  assert (present (message body) = true) as Hm by (rewrite Hmsg; exact Hq).
  destruct (post_chat_reply w body st Hm) as (id & conv & st3 & E3 & Er & Ec).
  rewrite Hmsg in *. cbn [show] in *.
  rewrite respond_run, Hweb in *. cbn [fst snd calls] in *.
  split; [|split].
  - exists id. rewrite Er, handleWebSearchFlow_run. reflexivity.
  - intros req Hin. rewrite Ec, E3 in Hin.
    apply in_app_or in Hin as [Hin|Hin]; [assumption|].
    apply in_app_or in Hin as [Hin|[Hin|[]]]; [|discriminate Hin].
    unfold searched in Hin.
    destruct (present (SERP_API_KEY w)); [|destruct Hin].
    destruct Hin as [Hin|[]]. discriminate Hin.
  - intros r message_content reported Hr Hs Hc.
    rewrite (performWebSearch_any_store w query st empty_store) in Hr.
    unfold kimi_request in Er. rewrite Hr in Er. rewrite Hc in Er.
    destruct (web_answer_sources message_content reported (sources r) Hs) as (head & Eh).
    cbn [sources_of] in Er. rewrite Eh in Er. eauto.
Qed.

Lemma web_search_reply_lists_sources_witness :
  exists id use head,
    fst (post_chat kimi_up_world web_body empty_store)
    = ChatReply id (head ++ sources_section (sources sample_found)) use.
Proof.
  destruct (web_search_reply_lists_sources kimi_up_world web_body empty_store super_bowl
              eq_refl eq_refl eq_refl) as (_ & _ & H).
  apply (H sample_found (Some "The Kansas City Chiefs won.") None).
  - reflexivity.
  - discriminate.
  - reflexivity.
Defined.

(** The claim C2 fails as stated: the search finds two sources, the synthesis
    call rejects, and the reply is the error text, which does not end with
    the sources section. *)
Lemma web_search_error_reply_has_no_sources :
  webSearch web_body = true /\
  fst (performWebSearch kimi_down_world super_bowl empty_store) = Some sample_found /\
  sources sample_found <> [] /\
  fst (post_chat kimi_down_world web_body empty_store)
  = ChatReply "local-1700000000000" "Error generating web search response." NoUsage /\
  ~ (exists head,
        "Error generating web search response."
        = (head ++ sources_section (sources sample_found))%string).
Proof.
  split; [reflexivity|]. split; [reflexivity|]. split; [discriminate|].
  split; [reflexivity|].
  intros (head & E).
  pose proof (ends_with_complete (sources_section (sources sample_found)) head) as H.
  rewrite <- E in H. vm_compute in H. discriminate H.
Qed.

(** ** Depth *)

Lemma depth_label_cases (d : string) :
  In d depth_labels -> d = "Concise" \/ d = "Short" \/ d = "Medium" \/ d = "Large".
Proof. cbn. intuition auto. Qed.

(** C5, as the code has it: each of the four labels is a key of the static
    table and selects its own fixed instruction string, different from the
    other three; the standard flow puts that string at the end of the system
    message, the web search flow puts it in the user message, under a system
    message that does not depend on the depth. *)
Theorem depth_label_selects_instruction
  (d : string) (w : world) (prompt : list chat_message) (query context : string) :
  In d depth_labels ->
  assoc d depthInstructions = Some (depthInstruction d) /\
  (forall d', In d' depth_labels -> depthInstruction d' = depthInstruction d -> d' = d) /\
  messages (generate_request w prompt d)
  = {| role := "system"; content := SANYAI_SYSTEM ++ depthInstruction d |} :: prompt /\
  messages (web_search_request query context d)
  = [ {| role := "system"; content := KIMI_SYSTEM |};
      {| role := "user"; content := web_prompt query context (depthInstruction d) |} ].
Proof.
  intro Hd. split; [|split; [|split; reflexivity]].
  - apply depth_label_cases in Hd.
    destruct Hd as [-> | [-> | [-> | ->]]]; reflexivity.
  - intros d' Hd' E.
    apply depth_label_cases in Hd, Hd'.
    apply String.eqb_eq in E.
    destruct Hd as [-> | [-> | [-> | ->]]], Hd' as [-> | [-> | [-> | ->]]];
      first [reflexivity | vm_compute in E; discriminate E].
Qed.

Lemma depth_label_selects_instruction_witness :
  assoc "Medium" depthInstructions
  = Some "IMPORTANT CONSTRAINT: Provide a standard medium-length response, approximately 400-600 words.".
Proof.
  destruct (depth_label_selects_instruction "Medium" stored_world [] super_bowl NO_WEB_RESULTS)
    as [H _].
  - cbn. auto.
  - exact H.
Defined.

(** The claim C5 fails as stated: the token ceiling of both flows is 2048
    for the shortest and for the longest depth alike, and the system message
    of the web search flow is the same for both, although their instruction
    strings differ. *)
Lemma depth_keeps_token_ceiling_and_web_system_message :
  depthInstruction "Concise" <> depthInstruction "Large" /\
  max_tokens (generate_request stored_world [] "Concise") = 2048 /\
  max_tokens (generate_request stored_world [] "Large") = 2048 /\
  max_tokens (web_search_request super_bowl NO_WEB_RESULTS "Concise") = 2048 /\
  max_tokens (web_search_request super_bowl NO_WEB_RESULTS "Large") = 2048 /\
  hd_error (messages (web_search_request super_bowl NO_WEB_RESULTS "Concise"))
  = hd_error (messages (web_search_request super_bowl NO_WEB_RESULTS "Large")).
Proof.
  split; [|repeat split].
  intro E. apply String.eqb_eq in E. vm_compute in E. discriminate E.
Qed.

(** A depth that is neither a key of the table nor a member of
    [Object.prototype] reads as the Short instruction, and so does a missing
    depth, in both flows. *)
Lemma unknown_depth_reads_short (d : string) :
  assoc d depthInstructions = None ->
  assoc d Object_prototype = None ->
  depthInstruction d = depthInstruction "Short".
Proof.
  intros H1 H2. unfold depthInstruction, read_property at 1 2. now rewrite H1, H2.
Qed.

Lemma missing_depth_reads_short (w : world) (prompt : list chat_message)
  (query : string) (st : store) :
  generateResponse w prompt None st = generateResponse w prompt (Some "Short") st /\
  handleWebSearchFlow w query None st = handleWebSearchFlow w query (Some "Short") st.
Proof. split; reflexivity. Qed.

(** C9 at the failing input: the depth "constructor" is none of the four
    labels, yet the instruction both flows print for it is the native source
    of [Object], not the Short instruction; POST /chat sends it to the model
    at the end of the system message. *)
Theorem inherited_depth_key_is_not_short :
  ~ In "constructor" depth_labels /\
  depthInstruction "constructor" = "function Object() { [native code] }" /\
  depthInstruction "constructor" <> depthInstruction "Short" /\
  calls (snd (post_chat offline_world constructor_body empty_store))
  = [ Streams
        {| model := "openai/gpt-oss-120b:groq";
           messages :=
             [ {| role := "system";
                  content := SANYAI_SYSTEM ++ "function Object() { [native code] }" |};
               {| role := "user"; content := "Hi" |} ];
           max_tokens := 2048;
           temperature := 7 # 10;
           stream := true;
           json_object := false |} ] /\
  web_search_request super_bowl NO_WEB_RESULTS "constructor"
  <> web_search_request super_bowl NO_WEB_RESULTS "Short".
Proof.
  split; [|split; [|split; [|split]]].
  - cbn. intros [H|[H|[H|[H|[]]]]]; discriminate H.
  - reflexivity.
  - intro E. apply String.eqb_eq in E. vm_compute in E. discriminate E.
  - reflexivity.
  - intro E.
    apply (f_equal (fun r => String.eqb (content (last (messages r) {| role := ""; content := "" |}))
                               (web_prompt super_bowl NO_WEB_RESULTS (depthInstruction "Short")))) in E.
    vm_compute in E. discriminate E.
Qed.

(** * Further properties *)

(** ** String helpers *)

Lemma string_app_nil_r (s : string) : (s ++ "")%string = s.
Proof. induction s as [|c s IH]; cbn; [reflexivity | now rewrite IH]. Qed.

Lemma from_first_open_spec (s t : string) :
  from_first_open s = Some t <->
  exists a rest, s = (a ++ String open_brace rest)%string /\
                 t = String open_brace rest /\ lacks open_brace a = true.
Proof.
  split.
  - revert t. induction s as [|c s IH]; intros t H; cbn in H; [discriminate|].
    destruct (Ascii.eqb c open_brace) eqn:Hc.
    + apply Ascii.eqb_eq in Hc. subst c. apply some_eq in H. subst t.
      exists "", s. auto.
    + destruct (IH t H) as (a & rest & -> & -> & Ha).
      exists (String c a), rest. cbn. rewrite Hc, Ha. auto.
  - intros (a & rest & -> & -> & Ha).
    induction a as [|c a IH]; cbn in *.
    + reflexivity.
    + apply andb_prop in Ha as [Hc Ha]. apply negb_true_iff in Hc.
      rewrite Hc. now apply IH.
Qed.

Lemma upto_last_close_none (s : string) :
  upto_last_close s = None <-> lacks close_brace s = true.
Proof.
  induction s as [|c s IH]; cbn; [tauto|].
  destruct (upto_last_close s) as [p|].
  - split; [discriminate|]. intro H. apply andb_prop in H as [_ H].
    apply IH in H. discriminate H.
  - destruct (Ascii.eqb c close_brace); cbn.
    + split; discriminate.
    + split; [intros _; now apply IH | reflexivity].
Qed.

Lemma upto_last_close_spec (s p : string) :
  upto_last_close s = Some p <->
  exists q b, s = (q ++ String close_brace b)%string /\
              p = (q ++ String close_brace "")%string /\
              lacks close_brace b = true.
Proof.
  split.
  - revert p. induction s as [|c s IH]; intros p H; cbn in H; [discriminate|].
    destruct (upto_last_close s) as [p'|] eqn:E.
    + apply some_eq in H. subst p.
      destruct (IH p' eq_refl) as (q & b & -> & -> & Hb).
      exists (String c q), b. auto.
    + destruct (Ascii.eqb c close_brace) eqn:Hc; [|discriminate].
      apply Ascii.eqb_eq in Hc. subst c. apply some_eq in H. subst p.
      exists "", s. repeat split. now apply upto_last_close_none.
  - intros (q & b & -> & -> & Hb).
    induction q as [|c q IH]; cbn [append upto_last_close].
    + apply upto_last_close_none in Hb. rewrite Hb.
      unfold close_brace. now rewrite Ascii.eqb_refl.
    + now rewrite IH.
Qed.

Lemma match_braces_iff (s m : string) :
  match_braces s = Some m <->
  exists a q b,
    s = (a ++ m ++ b)%string /\
    m = (String open_brace q ++ String close_brace "")%string /\
    lacks open_brace a = true /\
    lacks close_brace b = true.
Proof.
  unfold match_braces. split.
  - destruct (from_first_open s) as [[|c rest]|] eqn:E; try discriminate.
    apply from_first_open_spec in E as (a & rest' & -> & Ht & Ha).
    injection Ht as -> ->.
    destruct (upto_last_close rest') as [p|] eqn:Ep; [|discriminate].
    intro H. apply some_eq in H. subst m.
    apply upto_last_close_spec in Ep as (q & b & -> & -> & Hb).
    exists a, q, b. repeat split; auto.
    cbn [append]. now rewrite !string_app_assoc.
  - intros (a & q & b & -> & -> & Ha & Hb).
    assert (from_first_open (a ++ (String open_brace q ++ String close_brace "") ++ b)
            = Some (String open_brace (q ++ String close_brace b))) as ->.
    { apply from_first_open_spec. exists a, (q ++ String close_brace b)%string.
      repeat split; auto. cbn [append]. now rewrite string_app_assoc. }
    assert (upto_last_close (q ++ String close_brace b)
            = Some (q ++ String close_brace "")%string) as ->.
    { apply upto_last_close_spec. exists q, b. auto. }
    reflexivity.
Qed.

(** X1: the regular expression of the third parsing attempt matches exactly
    the text from the first opening brace to the last closing brace after
    it: [match_braces s] is [m] if and only if [s] is a text without opening
    brace, then [m], then a text without closing brace, where [m] starts with
    an opening and ends with a closing brace. *)
Theorem match_braces_spec (s m : string) :
  match_braces s = Some m <->
  exists a q b,
    s = (a ++ m ++ b)%string /\
    m = (String open_brace q ++ String close_brace "")%string /\
    lacks open_brace a = true /\
    lacks close_brace b = true.
Proof. exact (match_braces_iff s m). Qed.

Lemma prefix_app (p s : string) :
  String.prefix p s = true <-> exists r, s = (p ++ r)%string.
Proof.
  revert s. induction p as [|a p IH]; intros s.
  - split; [intros _; now exists s | intros _; now destruct s].
  - destruct s as [|b s]; cbn [String.prefix append].
    + split; [discriminate | intros (r & H); discriminate H].
    + destruct (ascii_dec a b) as [->|Hab].
      * split.
        -- intro H. apply IH in H as (r & ->). now exists r.
        -- intros (r & H). apply IH. exists r. now injection H.
      * split; [discriminate | intros (r & H); injection H as H _; congruence].
Qed.

Lemma occurs_suffix (p a s : string) :
  occurs p (a ++ s) = false -> occurs p s = false.
Proof.
  induction a as [|c a IH]; cbn [append]; [auto|].
  intro H. apply IH. destruct (a ++ s)%string; cbn in H;
    apply orb_false_elim in H as [_ H]; exact H.
Qed.

Lemma occurs_unfold (p s : string) :
  occurs p s
  = String.prefix p s
    || match s with
       | EmptyString => false
       | String _ rest => occurs p rest
       end.
Proof. destruct s; reflexivity. Qed.

Lemma occurs_prefix_part (p s b : string) :
  occurs p (s ++ b) = false -> occurs p s = false.
Proof.
  induction s as [|c s IH]; intro H.
  - rewrite occurs_unfold in H |- *. cbn [append] in H.
    apply orb_false_elim in H as [H _]. apply orb_false_intro; [|reflexivity].
    destruct (String.prefix p "") eqn:E; [|reflexivity].
    apply prefix_app in E as (r & E). destruct p; [|discriminate E].
    now destruct b.
  - rewrite occurs_unfold in H |- *. cbn [append] in H.
    apply orb_false_elim in H as [H1 H2]. apply orb_false_intro; [|now apply IH].
    destruct (String.prefix p (String c s)) eqn:E; [|reflexivity].
    apply prefix_app in E as (r & E).
    assert (String.prefix p (String c (s ++ b)) = true) as E'.
    { apply prefix_app. exists (r ++ b)%string.
      change (String c (s ++ b)) with (String c s ++ b)%string.
      now rewrite E, string_app_assoc. }
    congruence.
Qed.

Lemma remove_fence_head (r : string) :
  remove_all "```" ("```" ++ r) = remove_all "```" r.
Proof.
  unfold remove_all. cbn [append remove_all_from].
  assert (String.prefix "```" (String "`" (String "`" (String "`" r))) = true) as ->
    by (apply prefix_app; now exists r).
  reflexivity.
Qed.

Lemma remove_fence_step (c : ascii) (s : string) :
  String.prefix "```" (String c s) = false ->
  remove_all "```" (String c s) = String c (remove_all "```" s).
Proof. unfold remove_all. cbn [remove_all_from]. now intros ->. Qed.

Lemma remove_fence_first (t : string) :
  String.prefix "`" (remove_all "```" t) = true -> String.prefix "`" t = true.
Proof.
  destruct t as [|c t]; [discriminate|].
  destruct (String.prefix "```" (String c t)) eqn:E.
  - intros _. apply prefix_app in E as (r & ->). apply prefix_app. now eexists.
  - rewrite (remove_fence_step _ _ E). intro H.
    apply prefix_app in H as (r & H). injection H as -> _.
    apply prefix_app. now exists t.
Qed.

Lemma remove_fence_two (t : string) :
  String.prefix "``" (remove_all "```" t) = true -> String.prefix "``" t = true.
Proof.
  destruct t as [|c t]; [discriminate|].
  destruct (String.prefix "```" (String c t)) eqn:E.
  - intros _. apply prefix_app in E as (r & ->). apply prefix_app. now eexists.
  - rewrite (remove_fence_step _ _ E). intro H.
    apply prefix_app in H as (r & H). injection H as -> H.
    assert (String.prefix "`" (remove_all "```" t) = true) as H'
      by (apply prefix_app; now exists r).
    apply remove_fence_first in H'. apply prefix_app in H' as (r' & ->).
    apply prefix_app. now exists r'.
Qed.

Lemma remove_fence_clean_upto (n : nat) :
  forall s, (String.length s <= n)%nat -> occurs "```" (remove_all "```" s) = false.
Proof.
  induction n as [|n IH]; intros s Hn.
  - destruct s; [reflexivity | cbn in Hn; lia].
  - destruct s as [|c s]; [reflexivity|].
    destruct (String.prefix "```" (String c s)) eqn:E.
    + apply prefix_app in E as (r & E). rewrite E, remove_fence_head.
      apply IH. rewrite E in Hn. cbn in Hn. lia.
    + rewrite (remove_fence_step _ _ E), occurs_unfold.
      apply orb_false_intro; [|apply IH; cbn in Hn; lia].
      destruct (String.prefix "```" (String c (remove_all "```" s))) eqn:E'; [|reflexivity].
      apply prefix_app in E' as (r & E'). injection E' as -> E'.
      assert (String.prefix "``" (remove_all "```" s) = true) as H
        by (apply prefix_app; now exists r).
      apply remove_fence_two in H. apply prefix_app in H as (r' & ->).
      assert (String.prefix "```" (String "`" ("``" ++ r')) = true) as E2
        by (apply prefix_app; now exists r').
      congruence.
Qed.

(** ** White space and [trim] *)

Lemma lacks_app (c : ascii) (a b : string) :
  lacks c (a ++ b) = lacks c a && lacks c b.
Proof.
  induction a as [|x a IH]; cbn; [reflexivity|]. now rewrite IH, andb_assoc.
Qed.

Section WhiteSpace.
Local Open Scope nat_scope.

Lemma drop_app (p r : string) : drop (String.length p) (p ++ r) = r.
Proof. induction p as [|c p IH]; cbn; [reflexivity | exact IH]. Qed.

Lemma trim_start_from_drop (s : string) :
  forall k, trim_start_from s k = trim_start (drop k s).
Proof.
  induction s as [|c s IH]; intros [|k]; try reflexivity.
  cbn [trim_start_from drop]. apply IH.
Qed.

Lemma trim_start_step (s : string) :
  trim_start s
  = match space_width s with
    | O => s
    | S k => trim_start (drop (S k) s)
    end.
Proof.
  destruct s as [|c s]; [reflexivity|].
  unfold trim_start at 1. cbn [trim_start_from].
  destruct (space_width (String c s)); [reflexivity|].
  cbn [drop]. apply trim_start_from_drop.
Qed.

Lemma prefixes_comparable (a b z : string) :
  String.prefix a z = true -> String.prefix b z = true ->
  String.prefix a b = true \/ String.prefix b a = true.
Proof.
  intros Ha Hb. apply prefix_app in Ha as (ra & Ea). apply prefix_app in Hb as (rb & Eb).
  subst z. revert b rb Eb. induction a as [|c a IH]; intros b rb Eb.
  - left. apply prefix_app. now exists b.
  - destruct b as [|d b].
    + right. apply prefix_app. now eexists.
    + cbn [append] in Eb. injection Eb as -> Eb.
      destruct (IH b rb Eb) as [H|H]; [left|right];
        apply prefix_app in H as (r & ->); apply prefix_app; now exists r.
Qed.

Lemma white_space_prefix_free (a b : string) :
  In a white_space -> In b white_space -> String.prefix a b = true -> a = b.
Proof.
  assert (forallb (fun a => forallb (fun b => implb (String.prefix a b) (String.eqb a b))
                                    white_space) white_space = true) as H
    by (vm_compute; reflexivity).
  intros Ha Hb Hp. rewrite forallb_forall in H. specialize (H a Ha).
  rewrite forallb_forall in H. specialize (H b Hb). rewrite Hp in H.
  now apply String.eqb_eq.
Qed.

Lemma space_width_of (ws z : string) :
  In ws white_space -> String.prefix ws z = true -> space_width z = String.length ws.
Proof.
  intros Hin Hp. unfold space_width.
  destruct (find (fun ws => String.prefix ws z) white_space) as [ws'|] eqn:F.
  - apply find_some in F as [Hin' Hp'].
    destruct (prefixes_comparable ws ws' z Hp Hp') as [H|H].
    + now rewrite (white_space_prefix_free ws ws' Hin Hin' H).
    + now rewrite (white_space_prefix_free ws' ws Hin' Hin H).
  - apply (find_none _ _ F) in Hin. cbv beta in Hin. congruence.
Qed.

Lemma space_width_some (s : string) (k : nat) :
  space_width s = S k ->
  exists ws r, In ws white_space /\ s = (ws ++ r)%string /\ String.length ws = S k.
Proof.
  unfold space_width.
  destruct (find (fun ws => String.prefix ws s) white_space) as [ws|] eqn:F;
    [|discriminate].
  apply find_some in F as [Hin Hp]. apply prefix_app in Hp as (r & ->).
  intro H. now exists ws, r.
Qed.

Lemma space_width_none (s ws : string) :
  space_width s = 0 -> In ws white_space -> String.prefix ws s = false.
Proof.
  intros H Hin. destruct (String.prefix ws s) eqn:E; [|reflexivity].
  rewrite (space_width_of ws s Hin E) in H.
  assert (forallb (fun ws => negb (String.length ws =? 0)%nat) white_space = true) as P
    by (vm_compute; reflexivity).
  rewrite forallb_forall in P. specialize (P ws Hin). rewrite H in P. discriminate P.
Qed.

(** A white-space character at the head stays one when text follows. *)
Lemma space_width_app (x t : string) (k : nat) :
  space_width x = S k -> space_width (x ++ t) = S k.
Proof.
  intro H. apply space_width_some in H as (ws & r & Hin & -> & <-).
  apply space_width_of; [exact Hin|]. apply prefix_app. exists (r ++ t)%string.
  apply string_app_assoc.
Qed.

Lemma prefix_of_app (a x t : string) :
  String.prefix a (x ++ t) = true ->
  String.prefix a x = true \/
  exists u, a = (x ++ u)%string /\ String.prefix u t = true.
Proof.
  revert a. induction x as [|c x IH]; intros a H.
  - right. exists a. auto.
  - destruct a as [|d a].
    + left. reflexivity.
    + cbn [append] in H. apply prefix_app in H as (r & H). injection H as -> H.
      assert (String.prefix a (x ++ t) = true) as H' by (apply prefix_app; now exists r).
      destruct (IH a H') as [P|(u & -> & P)].
      * left. apply prefix_app in P as (r' & ->). apply prefix_app. now exists r'.
      * right. exists u. auto.
Qed.

(** No white-space character has a line feed after its first byte. *)
Lemma space_width_newline (x : string) :
  x <> "" -> space_width x = 0 -> space_width (x ++ nl) = 0.
Proof.
  intros Hx H0. destruct (space_width (x ++ nl)) as [|k] eqn:E; [reflexivity|].
  exfalso. apply space_width_some in E as (ws & r & Hin & E & _).
  assert (String.prefix ws (x ++ nl) = true) as P by (apply prefix_app; now exists r).
  apply prefix_of_app in P as [P|(u & -> & P)].
  - rewrite (space_width_none x ws H0 Hin) in P. discriminate P.
  - destruct u as [|c u].
    + rewrite string_app_nil_r in Hin.
      assert (String.prefix x x = true) as Q by (apply prefix_app; exists ""; now rewrite string_app_nil_r).
      rewrite (space_width_none x x H0 Hin) in Q. discriminate Q.
    + apply prefix_app in P as (r' & P). unfold nl in P. cbn [append] in P.
      injection P as <- _.
      assert (forallb (fun ws => match ws with
                                 | EmptyString => true
                                 | String _ tail => lacks (ascii_of_nat 10) tail
                                 end) white_space = true) as L
        by (vm_compute; reflexivity).
      rewrite forallb_forall in L. specialize (L _ Hin).
      destruct x as [|d x]; [congruence|]. cbn [append] in L.
      rewrite lacks_app in L. cbn [lacks] in L. rewrite Ascii.eqb_refl in L.
      cbn in L. rewrite andb_false_r in L. discriminate L.
Qed.

Lemma length_app (a b : string) :
  String.length (a ++ b) = (String.length a + String.length b)%nat.
Proof. induction a as [|c a IH]; cbn; [reflexivity | now rewrite IH]. Qed.

Lemma drop_length (k : nat) (s : string) :
  (String.length (drop (S k) s) < String.length s \/ s = "")%nat.
Proof.
  destruct s as [|c s]; [now right|left]. cbn [drop String.length].
  revert s. induction k as [|k IH]; intro s; cbn [drop]; [lia|].
  destruct s as [|d s]; cbn [String.length drop]; [lia|]. specialize (IH s). lia.
Qed.

Lemma trim_start_suffix_upto (n : nat) :
  forall s, (String.length s <= n)%nat -> exists a, s = (a ++ trim_start s)%string.
Proof.
  induction n as [|n IH]; intros s Hn.
  - destruct s; [now exists "" | cbn in Hn; lia].
  - rewrite trim_start_step. destruct (space_width s) as [|k] eqn:E.
    + now exists "".
    + apply space_width_some in E as (ws & r & Hin & -> & L).
      rewrite <- L, drop_app.
      destruct (IH r) as (a & Ha).
      { rewrite length_app in Hn. lia. }
      exists (ws ++ a)%string. rewrite string_app_assoc. now rewrite <- Ha.
Qed.

Lemma trim_start_suffix (s : string) : exists a, s = (a ++ trim_start s)%string.
Proof. exact (trim_start_suffix_upto _ s (Nat.le_refl _)). Qed.

Lemma trim_end_prefix (s : string) : exists b, s = (trim_end s ++ b)%string.
Proof.
  induction s as [|c s (b & Hb)]; [now exists ""|].
  cbn [trim_end]. destruct (spaces_only (String c s)).
  - now exists (String c s).
  - exists b. cbn [append]. now rewrite <- Hb.
Qed.

Lemma trim_start_newline_upto (n : nat) :
  forall x, (String.length x <= n)%nat ->
    trim_start (x ++ nl)
    = match trim_start x with
      | EmptyString => EmptyString
      | String c v => (String c v ++ nl)%string
      end.
Proof.
  induction n as [|n IH]; intros x Hn.
  - destruct x; [reflexivity | cbn in Hn; lia].
  - destruct x as [|c x]; [reflexivity|].
    rewrite (trim_start_step (String c x ++ nl)), (trim_start_step (String c x)).
    destruct (space_width (String c x)) as [|k] eqn:E.
    + rewrite space_width_newline by (auto; discriminate). reflexivity.
    + rewrite (space_width_app _ nl _ E).
      apply space_width_some in E as (ws & r & Hin & E & L).
      rewrite E, string_app_assoc, <- L, !drop_app. apply IH.
      apply (f_equal String.length) in E. rewrite length_app in E.
      cbn [String.length] in E, Hn. lia.
Qed.

Lemma trim_start_newline (x : string) :
  trim_start (x ++ nl)
  = match trim_start x with
    | EmptyString => EmptyString
    | String c v => (String c v ++ nl)%string
    end.
Proof. exact (trim_start_newline_upto _ x (Nat.le_refl _)). Qed.

Lemma trim_end_newline (u : string) : trim_end (u ++ nl) = trim_end u.
Proof.
  induction u as [|c u IH]; [reflexivity|].
  cbn [append trim_end]. rewrite IH.
  assert (spaces_only (String c (u ++ nl)) = spaces_only (String c u)) as ->; [|reflexivity].
  unfold spaces_only. change (String c (u ++ nl)) with (String c u ++ nl)%string.
  rewrite trim_start_newline. now destruct (trim_start (String c u)).
Qed.

Lemma trim_between_newlines (text : string) : trim (nl ++ text ++ nl) = trim text.
Proof.
  unfold trim.
  assert (trim_start (nl ++ text ++ nl) = trim_start (text ++ nl)) as ->.
  { rewrite trim_start_step.
    assert (space_width (nl ++ text ++ nl) = 1) as ->.
    { apply (space_width_of nl); [right; left; reflexivity|].
      apply prefix_app. now eexists. }
    reflexivity. }
  rewrite trim_start_newline.
  destruct (trim_start text) as [|c v]; [reflexivity|].
  apply trim_end_newline.
Qed.

End WhiteSpace.

(** X2: the text the second parsing attempt reads never contains a markdown
    fence: no three backticks in a row are left in [strip_fences rawContent],
    whatever the raw output is. *)
Theorem strip_fences_leaves_no_fence (rawContent : string) :
  occurs "```" (strip_fences rawContent) = false.
Proof.
  unfold strip_fences, trim.
  set (cleaned := remove_all "```" (remove_all "```json" rawContent)).
  assert (occurs "```" cleaned = false) as Hc
    by (apply (remove_fence_clean_upto _ _ (Nat.le_refl _))).
  destruct (trim_start_suffix cleaned) as (a & Hs).
  destruct (trim_end_prefix (trim_start cleaned)) as (b & Hs').
  rewrite Hs in Hc. apply occurs_suffix in Hc.
  rewrite Hs' in Hc. now apply occurs_prefix_part in Hc.
Qed.

Lemma remove_all_keeps_plain (pat' plain t : string) :
  lacks backtick plain = true ->
  remove_all (String backtick pat') (plain ++ t)
  = (plain ++ remove_all (String backtick pat') t)%string.
Proof.
  intro H. unfold remove_all.
  induction plain as [|c plain IH]; [reflexivity|].
  cbn in H. apply andb_prop in H as [Hc H]. apply negb_true_iff in Hc.
  cbn [append remove_all_from String.prefix].
  destruct (ascii_dec backtick c) as [<-|_].
  - unfold backtick in Hc. now rewrite Ascii.eqb_refl in Hc.
  - now rewrite IH.
Qed.

Lemma strip_fences_unwraps_plain (text : string) :
  lacks backtick text = true ->
  strip_fences (fenced text) = trim text.
Proof.
  intro H. unfold strip_fences, fenced.
  assert (lacks backtick (nl ++ text ++ nl) = true) as Hp
    by (rewrite !lacks_app, H; reflexivity).
  assert (remove_all "```json" ("```json" ++ nl ++ text ++ nl ++ "```")
          = ((nl ++ text ++ nl) ++ "```")%string) as ->.
  { transitivity (remove_all "```json" ((nl ++ text ++ nl) ++ "```")).
    - rewrite !string_app_assoc. unfold remove_all.
      cbn [append remove_all_from].
      match goal with
      | |- context [String.prefix ?p ?s] =>
          assert (String.prefix p s = true) as -> by (apply prefix_app; eexists; reflexivity)
      end.
      reflexivity.
    - now rewrite (remove_all_keeps_plain "``json" _ _ Hp). }
  rewrite (remove_all_keeps_plain "``" _ _ Hp).
  change (remove_all "```" "```") with "".
  rewrite string_app_nil_r. apply trim_between_newlines.
Qed.

(** X3: a text without backticks that is wrapped in a markdown code block
    comes back from the cleaning step of the second parsing attempt, trimmed
    of the white space around it, as [trim()] understands white space: also
    a no-break space or a byte order mark. *)
Theorem strip_fences_unwraps (text : string) :
  lacks backtick text = true ->
  strip_fences (fenced text) = trim text.
Proof. exact (strip_fences_unwraps_plain text). Qed.

Lemma strip_fences_unwraps_witness :
  strip_fences (fenced (no_break_space ++ "{}" ++ byte_order_mark)) = "{}".
Proof.
  apply (strip_fences_unwraps (no_break_space ++ "{}" ++ byte_order_mark)).
  reflexivity.
Defined.

(** ** Smart prompt: what is read from the model's answer *)

Lemma smart_prompt_run (w : world) (prompt : string) (st : store) :
  nonempty prompt = true ->
  smart_prompt w (Some prompt) st
  = (match create_completion w (smart_prompt_request prompt) with
     | Rejects => ServerError "Failed to analyze prompt"
     | Completion message_content _ =>
         let result := robust_parse w (raw_content message_content) prompt in
         match get_prop result "optimized_prompt", get_prop result "issues" with
         | Some optimized, Some issues =>
             SmartPrompt (js_or issues (JArr [])) (js_or optimized (JStr prompt))
                         (countTokens w prompt)
                         (countTokens_of w (js_or optimized (JStr prompt)))
         | _, _ => ServerError "Failed to analyze prompt"
         end
     end,
     {| db := db st;
        calls := (calls st ++ [Completes (smart_prompt_request prompt)])%list |}).
Proof.
  intro Hp. unfold smart_prompt, bind, record_call, ret, raw_content.
  cbn [present show]. rewrite Hp. cbn [negb].
  destruct (create_completion w (smart_prompt_request prompt)) as [|c u]; [reflexivity|].
  cbv zeta.
  repeat match goal with
         | |- context [match get_prop ?v ?k with _ => _ end] => destruct (get_prop v k)
         end; reflexivity.
Qed.

Lemma smart_prompt_object (w : world) (prompt : string) (message_content : option string)
  (reported : option provider_usage) (st : store)
  (fields : list (string * jsval)) (better : string) :
  nonempty prompt = true ->
  create_completion w (smart_prompt_request prompt) = Completion message_content reported ->
  robust_parse w (raw_content message_content) prompt = JObj fields ->
  assoc "optimized_prompt" fields = Some (JStr better) ->
  nonempty better = true ->
  fst (smart_prompt w (Some prompt) st)
  = SmartPrompt
      (js_or (match assoc "issues" fields with Some i => i | None => JUndefined end)
             (JArr []))
      (JStr better) (countTokens w prompt) (Some (countTokens w better)).
Proof.
  intros Hp Hc Hr Ho Hb.
  rewrite (smart_prompt_run w prompt st Hp), Hc. cbv zeta. rewrite Hr.
  cbn [fst get_prop]. rewrite Ho. unfold js_or at 2 3 4. cbn [truthy].
  now rewrite Hb.
Qed.

(** X4: when the optimization model wraps its JSON object in a markdown code
    block, so that the direct parse fails, the endpoint still answers with
    the object's [optimized_prompt] and its token count, and with its
    [issues] (or none). *)
Theorem smart_prompt_reads_fenced_json
  (w : world) (prompt text : string) (reported : option provider_usage) (st : store)
  (fields : list (string * jsval)) (better : string) :
  nonempty prompt = true ->
  create_completion w (smart_prompt_request prompt)
  = Completion (Some (fenced text)) reported ->
  lacks backtick text = true ->
  JSON_parse w (fenced text) = None ->
  JSON_parse w (trim text) = Some (JObj fields) ->
  assoc "optimized_prompt" fields = Some (JStr better) ->
  nonempty better = true ->
  fst (smart_prompt w (Some prompt) st)
  = SmartPrompt
      (js_or (match assoc "issues" fields with Some i => i | None => JUndefined end)
             (JArr []))
      (JStr better) (countTokens w prompt) (Some (countTokens w better)).
Proof.
  intros Hp Hc Ht H1 H2 Ho Hb.
  apply (smart_prompt_object w prompt (Some (fenced text)) reported st fields better);
    auto.
  unfold raw_content.
  assert (present (Some (fenced text)) = true) as -> by reflexivity.
  cbn [show]. unfold robust_parse. rewrite H1.
  pose proof (strip_fences_unwraps_plain text Ht) as E. rewrite E, H2. reflexivity.
Qed.

Lemma smart_prompt_reads_fenced_json_witness :
  fst (smart_prompt (answering_world (fenced shorter_prompt_json))
         (Some "Can you please sum two numbers?") empty_store)
  = SmartPrompt (JArr []) (JStr "Sum two numbers.") 31 (Some 16).
Proof.
  apply (smart_prompt_reads_fenced_json
           (answering_world (fenced shorter_prompt_json))
           "Can you please sum two numbers?" shorter_prompt_json None empty_store
           [("optimized_prompt", JStr "Sum two numbers.")] "Sum two numbers.");
    reflexivity.
Defined.

(** X5: when the model surrounds its JSON object with prose, so that neither
    the direct parse nor the parse of the cleaned text succeeds, the endpoint
    reads the object between the first opening and the last closing brace:
    it answers with that object's [optimized_prompt]. *)
Theorem smart_prompt_reads_embedded_json
  (w : world) (prompt before inner after : string) (reported : option provider_usage)
  (st : store) (fields : list (string * jsval)) (better : string) :
  let object := (String open_brace inner ++ String close_brace "")%string in
  let rawContent := (before ++ object ++ after)%string in
  nonempty prompt = true ->
  create_completion w (smart_prompt_request prompt)
  = Completion (Some rawContent) reported ->
  lacks open_brace before = true ->
  lacks close_brace after = true ->
  JSON_parse w rawContent = None ->
  JSON_parse w (strip_fences rawContent) = None ->
  JSON_parse w object = Some (JObj fields) ->
  assoc "optimized_prompt" fields = Some (JStr better) ->
  nonempty better = true ->
  fst (smart_prompt w (Some prompt) st)
  = SmartPrompt
      (js_or (match assoc "issues" fields with Some i => i | None => JUndefined end)
             (JArr []))
      (JStr better) (countTokens w prompt) (Some (countTokens w better)).
Proof.
  intros object rawContent Hp Hc Ha Hb H1 H2 H3 Ho Hn.
  apply (smart_prompt_object w prompt (Some rawContent) reported st fields better);
    auto.
  assert (nonempty rawContent = true) as Hr.
  { subst rawContent object. destruct before; reflexivity. }
  unfold raw_content. cbn [present show]. rewrite Hr.
  unfold robust_parse. rewrite H1, H2.
  assert (match_braces rawContent = Some object) as ->.
  { apply match_braces_iff. exists before, inner, after. auto. }
  now rewrite H3.
Qed.

Lemma smart_prompt_reads_embedded_json_witness :
  fst (smart_prompt
         (answering_world ("Here you go: " ++ shorter_prompt_json ++ " Hope it helps!"))
         (Some "Can you please sum two numbers?") empty_store)
  = SmartPrompt (JArr []) (JStr "Sum two numbers.") 31 (Some 16).
Proof.
  apply (smart_prompt_reads_embedded_json
           (answering_world ("Here you go: " ++ shorter_prompt_json ++ " Hope it helps!"))
           "Can you please sum two numbers?" "Here you go: "
           (dq ++ "optimized_prompt" ++ dq ++ ": " ++ dq ++ "Sum two numbers." ++ dq)
           " Hope it helps!" None empty_store
           [("optimized_prompt", JStr "Sum two numbers.")] "Sum two numbers.");
    reflexivity.
Defined.

Lemma js_or_truthy (a b : jsval) : truthy b = true -> truthy (js_or a b) = true.
Proof. intro H. unfold js_or. now destruct (truthy a) eqn:E. Qed.

(** X6: for a non-empty prompt the endpoint answers 500 exactly when the call
    to the model rejects or the value parsed from its answer is [null];
    every other answer is a 200 whose [issues] and [optimizedPrompt] are
    both present (truthy) and whose [originalTokens] is the count of the
    prompt. *)
Theorem smart_prompt_answers
  (w : world) (prompt : string) (st : store) :
  nonempty prompt = true ->
  ((exists err, fst (smart_prompt w (Some prompt) st) = ServerError err) <->
   (create_completion w (smart_prompt_request prompt) = Rejects \/
    exists message_content reported,
      create_completion w (smart_prompt_request prompt)
      = Completion message_content reported /\
      (robust_parse w (raw_content message_content) prompt = JNull \/
       robust_parse w (raw_content message_content) prompt = JUndefined))) /\
  match fst (smart_prompt w (Some prompt) st) with
  | ServerError err => err = "Failed to analyze prompt"
  | SmartPrompt issues optimizedPrompt originalTokens _ =>
      truthy issues = true /\ truthy optimizedPrompt = true /\
      originalTokens = countTokens w prompt
  | _ => False
  end.
Proof.
  intro Hp. rewrite (smart_prompt_run w prompt st Hp). cbn [fst].
  destruct (create_completion w (smart_prompt_request prompt)) as [|c u].
  - split; [|reflexivity]. split; [auto | intros _; eauto].
  - cbv zeta.
    destruct (robust_parse w (raw_content c) prompt) as [| |b|n|s|l|fields] eqn:E;
      cbn [get_prop].
    1, 2: split; [|reflexivity]; split; [intros _; right; exists c, u; auto | eauto].
    all: split;
      [ split;
        [ intros (err & H); discriminate H
        | intros [H|(c' & u' & H & [H'|H'])];
          [ discriminate H
          | injection H as <- <-; rewrite E in H'; discriminate H'
          | injection H as <- <-; rewrite E in H'; discriminate H' ] ]
      | repeat split; apply js_or_truthy; first [reflexivity | exact Hp] ].
Qed.

Lemma smart_prompt_answers_witness :
  exists err,
    fst (smart_prompt (answering_world "null") (Some "Can you please sum two numbers?")
           empty_store)
    = ServerError err.
Proof.
  apply (proj1 (smart_prompt_answers (answering_world "null")
                  "Can you please sum two numbers?" empty_store eq_refl)).
  right. exists (Some "null"), None. split; [reflexivity | left; reflexivity].
Defined.

(** X7: POST /smart-prompt never writes to the database; it calls the
    optimization model exactly once for a prompt it accepts, in JSON mode
    with at most 500 tokens, and not at all for a missing or empty prompt,
    which it rejects with 400. *)
Theorem smart_prompt_effects (w : world) (prompt : option string) (st : store) :
  db (snd (smart_prompt w prompt st)) = db st /\
  calls (snd (smart_prompt w prompt st))
  = (calls st
     ++ if present prompt then [Completes (smart_prompt_request (show prompt))] else [])%list /\
  max_tokens (smart_prompt_request (show prompt)) = 500 /\
  json_object (smart_prompt_request (show prompt)) = true /\
  (if present prompt then True
   else smart_prompt w prompt st = (BadRequest "Prompt is required", st)).
Proof.
  destruct prompt as [p|]; cbn [present show].
  - destruct (nonempty p) eqn:Hp.
    + rewrite (smart_prompt_run w p st Hp). cbn. auto.
    + unfold smart_prompt. cbn [present]. rewrite Hp. cbn.
      rewrite app_nil_r. auto.
  - cbn. rewrite app_nil_r. auto.
Qed.

(** ** Web search helper: which part of the answer is used *)

Lemma read_results_parts (data : serp_data) (r : search_result) :
  read_results data = Some r ->
  present (error data) = false /\
  exists chunks s1 s2,
    extract_chunks data = Some chunks /\
    organic_sources data = Some s1 /\
    with_references data s1 = Some s2 /\
    with_block_sources data s2 = Some (sources r) /\
    context r = String.concat (nl ++ nl) (firstn 15 chunks).
Proof.
  unfold read_results.
  destruct (present (error data)); [discriminate|].
  destruct (extract_chunks data) as [chunks|]; cbn [and_then]; [|discriminate].
  destruct (organic_sources data) as [s1|]; cbn [and_then]; [|discriminate].
  destruct (with_references data s1) as [s2|] eqn:E2; cbn [and_then]; [|discriminate].
  destruct (with_block_sources data s2) as [s3|] eqn:E3; cbn [and_then]; [|discriminate].
  intro H. apply some_eq in H. subst r. cbn [sources context].
  split; [reflexivity|]. exists chunks, s1, s2. auto.
Qed.

Lemma performWebSearch_some (w : world) (query : string) (st : store) (r : search_result) :
  fst (performWebSearch w query st) = Some r ->
  present (SERP_API_KEY w) = true /\
  exists data, serp_fetch w query = Some data /\ read_results data = Some r.
Proof.
  unfold performWebSearch, bind, record_call, ret.
  destruct (present (SERP_API_KEY w)); cbn [negb fst]; [|discriminate].
  destruct (serp_fetch w query) as [data|]; cbn [and_then]; [|discriminate].
  eauto.
Qed.

(** X8: the search helper never touches the database and asks the search
    service at most once, and not at all without an API key; it answers
    null without a key, when the request fails, and when the service
    reports an error. *)
Theorem performWebSearch_effects (w : world) (query : string) (st : store) :
  db (snd (performWebSearch w query st)) = db st /\
  calls (snd (performWebSearch w query st))
  = (calls st ++ if present (SERP_API_KEY w) then [Searches query] else [])%list /\
  (if present (SERP_API_KEY w)
   then match serp_fetch w query with
        | None => fst (performWebSearch w query st) = None
        | Some data =>
            if present (error data) then fst (performWebSearch w query st) = None
            else fst (performWebSearch w query st) = read_results data
        end
   else performWebSearch w query st = (None, st)).
Proof.
  unfold performWebSearch, bind, record_call, ret.
  destruct (present (SERP_API_KEY w)); cbn [negb fst snd db calls].
  - split; [reflexivity|]. split; [reflexivity|].
    destruct (serp_fetch w query) as [data|]; cbn [and_then]; [|reflexivity].
    unfold read_results. destruct (present (error data)); reflexivity.
  - rewrite app_nil_r. auto.
Qed.

(** X9: text blocks take precedence over organic results for the context:
    when some text block carries text, the context is joined from the first
    fifteen of the text-block chunks, and the snippets of the organic results
    are read only when no text block carries any. *)
Theorem context_prefers_text_blocks
  (w : world) (query : string) (st : store) (r : search_result) :
  fst (performWebSearch w query st) = Some r ->
  exists data,
    serp_fetch w query = Some data /\
    context r
    = String.concat (nl ++ nl)
        (firstn 15 (match block_chunks data with
                    | [] => snippets data
                    | chunks => chunks
                    end)).
Proof.
  intro H. apply performWebSearch_some in H as (_ & data & Hf & Hr).
  exists data. split; [exact Hf|].
  apply read_results_parts in Hr as (_ & chunks & s1 & s2 & Hc & _ & _ & _ & ->).
  do 2 f_equal. unfold extract_chunks in Hc. unfold block_chunks, snippets.
  destruct (match text_blocks data with Items bs => _ | _ => [] end) as [|c cs];
    cbn [List.length Nat.eqb andb] in Hc.
  - destruct (organic_results data) as [| |rs]; cbn [is_set] in Hc;
      try discriminate Hc; now apply some_eq in Hc.
  - now apply some_eq in Hc.
Qed.

Lemma context_prefers_text_blocks_witness :
  exists data,
    serp_fetch kimi_up_world super_bowl = Some data /\
    context sample_found
    = String.concat (nl ++ nl)
        (firstn 15 (match block_chunks data with
                    | [] => snippets data
                    | chunks => chunks
                    end)).
Proof.
  apply (context_prefers_text_blocks kimi_up_world super_bowl empty_store sample_found).
  reflexivity.
Defined.

Lemma merge_sources_from (blockSources : list source) :
  forall sources,
    exists merged,
      fold_left merge_source blockSources sources = (sources ++ merged)%list /\
      incl merged blockSources.
Proof.
  induction blockSources as [|bs rest IH]; intros sources; cbn [fold_left].
  - exists []. rewrite app_nil_r. split; [reflexivity | apply incl_nil_l].
  - unfold merge_source at 2.
    destruct (negb (existsb (fun s => same_link (link s) (link bs)) sources)
              && (List.length sources <? 5)%nat).
    + destruct (IH (sources ++ [bs])%list) as (merged & -> & Hin).
      exists (bs :: merged). rewrite <- app_assoc. split; [reflexivity|].
      intros s [<-|Hs]; [now left | right; now apply Hin].
    + destruct (IH sources) as (merged & -> & Hin).
      exists merged. split; [reflexivity|]. intros s Hs. right. now apply Hin.
Qed.

Lemma present_or_default (a : option string) (d : string) :
  nonempty d = true -> present (or_else a (Some d)) = true.
Proof.
  intro H. unfold or_else. destruct (present a) eqn:E; [exact E | exact H].
Qed.

Lemma with_block_sources_adds (data : serp_data) (s2 s3 : list source) :
  with_block_sources data s2 = Some s3 ->
  exists merged,
    s3 = (s2 ++ merged)%list /\
    ((3 <= List.length s2)%nat -> merged = []) /\
    Forall (fun s => present (link s) = true /\ present (title s) = true /\
                     favicon s = None) merged.
Proof.
  unfold with_block_sources.
  destruct (List.length s2 <? 3)%nat eqn:L; cbn [andb].
  - destruct (text_blocks data) as [| |bs]; cbn [is_set]; intro H;
      try discriminate H; apply some_eq in H; subst s3.
    + exists []. rewrite app_nil_r. repeat split; auto.
    + destruct (merge_sources_from
                  (filter (fun s => present (link s)) (map block_source bs)) s2)
        as (merged & -> & Hin).
      exists merged. split; [reflexivity|]. split.
      * intro H. apply Nat.ltb_lt in L. lia.
      * apply Forall_forall. intros s Hs. apply Hin in Hs.
        apply filter_In in Hs as [Hs Hl]. apply in_map_iff in Hs as (b & <- & _).
        split; [exact Hl|]. split; [|reflexivity].
        cbn [title block_source]. now apply present_or_default.
  - intro H. apply some_eq in H. subst s3. exists []. rewrite app_nil_r.
    repeat split; auto.
Qed.

(** X10: the sources are chosen by strategy: organic results, when there are
    any, come first (the first five); references are read only when there is
    no organic result; sources from text blocks are appended only while
    fewer than three are known, each with a link, a title and no favicon. *)
Theorem sources_by_strategy
  (w : world) (query : string) (st : store) (r : search_result) :
  fst (performWebSearch w query st) = Some r ->
  exists data merged,
    serp_fetch w query = Some data /\
    Forall (fun s => present (link s) = true /\ present (title s) = true /\
                     favicon s = None) merged /\
    match organic_results data with
    | Items (first :: more) =>
        sources r = (map organic_source (firstn 5 (first :: more)) ++ merged)%list /\
        ((3 <= List.length (first :: more))%nat -> merged = [])
    | _ =>
        match references data with
        | Items refs =>
            sources r = (map reference_source (firstn 5 refs) ++ merged)%list /\
            ((3 <= List.length refs)%nat -> merged = [])
        | _ => sources r = merged
        end
    end.
Proof.
  intro H. apply performWebSearch_some in H as (_ & data & Hf & Hr).
  apply read_results_parts in Hr as (_ & chunks & s1 & s2 & _ & H1 & H2 & H3 & _).
  apply with_block_sources_adds in H3 as (merged & -> & Hskip & Hm).
  exists data, merged. split; [exact Hf|]. split; [exact Hm|].
  unfold organic_sources in H1. unfold with_references in H2.
  destruct (organic_results data) as [| |[|first more]];
    try discriminate H1; apply some_eq in H1; subst s1.
  - cbn [List.length Nat.eqb andb] in H2.
    destruct (references data) as [| |refs]; cbn [is_set] in H2;
      try discriminate H2; apply some_eq in H2; subst s2.
    + reflexivity.
    + split; [reflexivity|]. intro L. apply Hskip.
      rewrite length_map, length_firstn. lia.
  - change (map organic_source (firstn 5 [])) with (@nil source) in *.
    cbn [List.length Nat.eqb andb] in H2.
    destruct (references data) as [| |refs]; cbn [is_set] in H2;
      try discriminate H2; apply some_eq in H2; subst s2.
    + reflexivity.
    + split; [reflexivity|]. intro L. apply Hskip.
      rewrite length_map, length_firstn. lia.
  - assert (with_references data (map organic_source (firstn 5 (first :: more)))
            = Some (map organic_source (firstn 5 (first :: more)))) as E by reflexivity.
    unfold with_references in E. rewrite E in H2. apply some_eq in H2. subst s2.
    split; [reflexivity|]. intro L. apply Hskip.
    rewrite length_map, length_firstn. lia.
Qed.

Lemma sources_by_strategy_witness :
  exists data merged,
    serp_fetch organic_world super_bowl = Some data /\
    Forall (fun s => present (link s) = true /\ present (title s) = true /\
                     favicon s = None) merged /\
    match organic_results data with
    | Items (first :: more) =>
        sources organic_found
        = (map organic_source (firstn 5 (first :: more)) ++ merged)%list /\
        ((3 <= List.length (first :: more))%nat -> merged = [])
    | _ =>
        match references data with
        | Items refs =>
            sources organic_found
            = (map reference_source (firstn 5 refs) ++ merged)%list /\
            ((3 <= List.length refs)%nat -> merged = [])
        | _ => sources organic_found = merged
        end
    end.
Proof.
  apply (sources_by_strategy organic_world super_bowl empty_store organic_found).
  reflexivity.
Defined.

(** ** Web search flow without search results *)

(** X11: when the search helper answers null (no key, a failed request, an
    error of the service), the web search flow still asks the synthesis model
    once, telling it that no web results were found, and the reply is the
    model's text (or the stand-in for an empty text) with no sources
    section. *)
Theorem web_flow_without_results
  (w : world) (query : string) (depth : option string) (st : store) :
  fst (performWebSearch w query st) = None ->
  let req := web_search_request query NO_WEB_RESULTS (default_to "Short" depth) in
  calls (snd (handleWebSearchFlow w query depth st))
  = (calls st ++ searched w query ++ [Completes req])%list /\
  fst (fst (handleWebSearchFlow w query depth st))
  = match create_completion w req with
    | Rejects => "Error generating web search response."
    | Completion message_content _ =>
        if present message_content then show message_content
        else "Failed to generate response."
    end.
Proof.
  intros H req. rewrite handleWebSearchFlow_run. cbv zeta.
  rewrite (performWebSearch_any_store w query st empty_store) in H. rewrite H.
  cbn [context_of sources_of fst snd calls]. fold req.
  split; [reflexivity|].
  destruct (create_completion w req); reflexivity.
Qed.

Lemma web_flow_without_results_witness :
  fst (fst (handleWebSearchFlow no_search_world super_bowl None empty_store))
  = "From memory: the Kansas City Chiefs.".
Proof.
  apply (web_flow_without_results no_search_world super_bowl None empty_store).
  reflexivity.
Defined.

(** ** The database across requests *)

Lemma NoDup_snoc {A : Type} (l : list A) (x : A) :
  NoDup l -> ~ In x l -> NoDup (l ++ [x]).
Proof.
  induction l as [|a l IH]; intros Hn Hx; cbn.
  - constructor; [auto | constructor].
  - inversion Hn as [|? ? Ha Hl]; subst. constructor.
    + intro H. apply in_app_or in H as [H|[H|[]]]; [auto|].
      subst. apply Hx. now left.
    + apply IH; [assumption|]. intro H. apply Hx. now right.
Qed.

Lemma saved_rows (w : world) (site : db_call) (id : string) (st : store)
  (row r : message_row) :
  In r (saved w site id st row) -> r = row /\ known_chat id st = true.
Proof.
  unfold saved.
  destruct (supabase w && negb (db_fault w site)); cbn [andb]; [|intros []].
  destruct (known_chat id st); [|intros []].
  intros [<-|[]]. auto.
Qed.

Lemma chat_session_chats (w : world) (cid : option string) (st : store) :
  chats_table (db (snd (chat_session w cid st))) = chats_table (db st) \/
  (chats_table (db (snd (chat_session w cid st)))
   = (chats_table (db st) ++ [uuid_generate_v4 w])%list /\
   ~ In (uuid_generate_v4 w) (chats_table (db st))).
Proof.
  rewrite chat_session_run.
  destruct (present cid); [now left|].
  destruct (supabase w && negb (db_fault w CreateChat)); cbn [andb]; [|now left].
  destruct (known_chat (uuid_generate_v4 w) st) eqn:K; cbn [negb]; [now left|].
  right. split; [reflexivity|].
  intro H. apply known_chat_In in H. congruence.
Qed.

Lemma post_chat_keeps_schema (w : world) (body : chat_body) (st : store) :
  schema_holds (db st) -> schema_holds (db (snd (post_chat w body st))).
Proof.
  intros [Hn Hr].
  destruct (present (message body)) eqn:Hm.
  - destruct (post_chat_db w body st Hm) as (reply & use & _ & Ec & Em).
    cbv zeta in Ec, Em. unfold schema_holds. rewrite Ec, Em, chat_session_messages.
    assert (incl (chats_table (db st))
                 (chats_table (db (snd (chat_session w (chat_id body) st))))) as Hincl.
    { destruct (chat_session_chats w (chat_id body) st) as [->|[-> _]];
        [apply incl_refl | apply incl_appl, incl_refl]. }
    split.
    + destruct (chat_session_chats w (chat_id body) st) as [->|[-> Hfresh]];
        [assumption | now apply NoDup_snoc].
    + intros r Hin. apply in_app_or in Hin as [Hin|Hin]; [apply Hincl; auto|].
      apply in_app_or in Hin as [Hin|Hin];
        apply saved_rows in Hin as [-> K]; apply known_chat_In in K; exact K.
  - unfold post_chat. rewrite Hm. cbn. now split.
Qed.

Lemma serve_keeps_schema (w : world) (req : request) (st : store) :
  schema_holds (db st) -> schema_holds (db (snd (serve w req st))).
Proof.
  intro H. destruct req as [prompt|body|id|]; cbn [serve].
  - now rewrite smart_prompt_keeps_db.
  - now apply post_chat_keeps_schema.
  - now rewrite get_chat_keeps_store.
  - now rewrite get_chats_keeps_store.
Qed.

Lemma serve_rows (w : world) (req : request) (st : store) :
  exists added,
    messages_table (db (snd (serve w req st)))
    = (messages_table (db st) ++ added)%list /\
    forall r, In r added -> turn_of r req (fst (serve w req st)).
Proof.
  destruct req as [prompt|body|id|]; cbn [serve].
  - exists []. rewrite smart_prompt_keeps_db, app_nil_r. split; [reflexivity | intros r []].
  - destruct (present (message body)) eqn:Hm.
    + destruct (post_chat_db w body st Hm) as (reply & use & E1 & _ & E2).
      cbv zeta in E1, E2. rewrite chat_session_messages in E2.
      eexists. split; [exact E2|].
      intros r Hin. exists body, reply, use. split; [reflexivity|].
      apply in_app_or in Hin as [Hin|Hin]; apply saved_rows in Hin as [-> _];
        cbn [row_chat_id row_role row_content]; (split; [exact E1|]).
      * left. split; [reflexivity|].
        destruct (message body) as [text|]; [reflexivity | discriminate Hm].
      * right. split; reflexivity.
    + exists []. unfold post_chat. rewrite Hm. cbn. rewrite app_nil_r.
      split; [reflexivity | intros r []].
  - exists []. rewrite get_chat_keeps_store, app_nil_r. split; [reflexivity | intros r []].
  - exists []. rewrite get_chats_keeps_store, app_nil_r. split; [reflexivity | intros r []].
Qed.

Lemma serve_all_keeps_schema (session : list (world * request)) :
  forall st, schema_holds (db st) -> schema_holds (db (snd (serve_all session st))).
Proof.
  induction session as [|[w req] rest IH]; intros st H; cbn [serve_all].
  - exact H.
  - pose proof (serve_keeps_schema w req st H) as H1.
    destruct (serve w req st) as [r st1]. cbn [snd] in H1.
    specialize (IH st1 H1).
    destruct (serve_all rest st1) as [rs st2]. exact IH.
Qed.

Lemma serve_all_rows (session : list (world * request)) :
  forall st, exists added,
    messages_table (db (snd (serve_all session st)))
    = (messages_table (db st) ++ added)%list /\
    forall r, In r added ->
      exists w req answer,
        In ((w, req), answer) (combine session (fst (serve_all session st))) /\
        turn_of r req answer.
Proof.
  induction session as [|[w req] rest IH]; intro st; cbn [serve_all].
  - exists []. cbn. rewrite app_nil_r. split; [reflexivity | intros r []].
  - destruct (serve_rows w req st) as (a1 & E1 & T1).
    destruct (serve w req st) as [answer st1]. cbn [fst snd] in E1, T1.
    destruct (IH st1) as (a2 & E2 & T2).
    destruct (serve_all rest st1) as [rs st2]. cbn [fst snd] in *.
    exists (a1 ++ a2)%list. split; [now rewrite E2, E1, app_assoc|].
    intros r Hin. apply in_app_or in Hin as [Hin|Hin].
    + exists w, req, answer. split; [left; reflexivity | now apply T1].
    + destruct (T2 r Hin) as (w' & req' & answer' & Hc & Ht).
      exists w', req', answer'. split; [right; exact Hc | exact Ht].
Qed.

(** X12: what a session of requests leaves in the database.  The
    constraints of schema.sql stay true (chat ids are unique, every message
    belongs to a stored chat), the rows stored before are followed by the
    rows added, and every added row is a turn of one of the session's
    POST /chat exchanges: it is stored under the chat id that request was
    answered with, and it has either role "user" and the posted message as
    content, or role "assistant" and the returned response as content.  So
    the handlers write no other role than the two the check of schema.sql
    admits, and no text that was not said in the session. *)
Theorem sessions_keep_schema (session : list (world * request)) (st : store) :
  schema_holds (db st) ->
  schema_holds (db (snd (serve_all session st))) /\
  exists added,
    messages_table (db (snd (serve_all session st)))
    = (messages_table (db st) ++ added)%list /\
    forall r, In r added ->
      exists w req answer,
        In ((w, req), answer) (combine session (fst (serve_all session st))) /\
        turn_of r req answer.
Proof.
  intro H. split; [now apply serve_all_keeps_schema | apply serve_all_rows].
Qed.

Lemma sessions_keep_schema_witness :
  schema_holds
    (db (snd (serve_all [ (stored_world, PostChat first_body);
                          (stored_world, PostChat follow_up_body);
                          (stored_world, GetChats) ]
                        empty_store))) /\
  exists added,
    messages_table
      (db (snd (serve_all [ (stored_world, PostChat first_body);
                            (stored_world, PostChat follow_up_body);
                            (stored_world, GetChats) ]
                          empty_store)))
    = (messages_table (db empty_store) ++ added)%list /\
    forall r, In r added ->
      exists w req answer,
        In ((w, req), answer)
           (combine [ (stored_world, PostChat first_body);
                      (stored_world, PostChat follow_up_body);
                      (stored_world, GetChats) ]
                    (fst (serve_all [ (stored_world, PostChat first_body);
                                      (stored_world, PostChat follow_up_body);
                                      (stored_world, GetChats) ]
                                    empty_store))) /\
        turn_of r req answer.
Proof.
  apply (sessions_keep_schema _ empty_store).
  split; [constructor | intros r []].
Defined.

Lemma get_chat_run (w : world) (id : string) (st : store) :
  get_chat w id st
  = (MessageList (if supabase w && negb (db_fault w FetchMessages)
                  then history_of id st else []),
     st).
Proof.
  unfold get_chat, select_messages, history_of, bind, read_db, ret.
  destruct (supabase w); cbn [negb andb]; [|reflexivity].
  destruct (db_fault w FetchMessages); reflexivity.
Qed.

Lemma history_of_rows (id : string) (st : store) (rows : list message_row) :
  filter (fun r => String.eqb (row_chat_id r) id) (messages_table (db st) ++ rows)
  = (history_of id st ++ filter (fun r => String.eqb (row_chat_id r) id) rows)%list.
Proof. unfold history_of. apply filter_app. Qed.

(** POST /chat on a request that names its chat, step by step. *)
Lemma post_chat_named (w : world) (body : chat_body) (st : store) (id text : string) :
  chat_id body = Some id -> nonempty id = true ->
  message body = Some text -> nonempty text = true ->
  let st2 := snd (save_message w InsertUserMessage id "user" text st) in
  let conversation := fst (load_context w id text st2) in
  let answer := respond w body text conversation st2 in
  post_chat w body st
  = (ChatReply id (fst (fst answer)) (snd (fst answer)),
     snd (save_message w InsertAssistantMessage id "assistant"
            (fst (fst answer)) (snd answer))).
Proof.
  intros Hid Hne Hmsg Htext. cbv zeta.
  assert (present (message body) = true) as Hm by (rewrite Hmsg; exact Htext).
  rewrite (post_chat_steps w body st Hm). cbv zeta.
  rewrite chat_session_run, Hid, Hmsg. cbn [present show]. rewrite Hne.
  cbn [fst snd]. rewrite (load_context_run w id text). reflexivity.
Qed.

(** X13: what POST /chat stores, GET /chat/:id reads back: after a message
    to an existing chat on a database that accepts the inserts, the messages
    of that chat are those it had before, then the user's message, then the
    reply that was returned. *)
Theorem posted_messages_are_read_back
  (w w' : world) (body : chat_body) (st : store) (id text : string) :
  chat_id body = Some id -> nonempty id = true ->
  In id (chats_table (db st)) ->
  message body = Some text -> nonempty text = true ->
  supabase w = true ->
  db_fault w InsertUserMessage = false ->
  db_fault w InsertAssistantMessage = false ->
  supabase w' = true ->
  db_fault w' FetchMessages = false ->
  exists reply use,
    fst (post_chat w body st) = ChatReply id reply use /\
    fst (get_chat w' id (snd (post_chat w body st)))
    = MessageList (history_of id st ++ [user_row id text; assistant_row id reply]).
Proof.
  intros Hid Hne Hin Hmsg Htext Hs Hf1 Hf2 Hs' Hf'.
  rewrite (post_chat_named w body st id text Hid Hne Hmsg Htext). cbv zeta.
  apply known_chat_In in Hin.
  set (st2 := snd (save_message w InsertUserMessage id "user" text st)).
  set (answer := respond w body text _ st2).
  exists (fst (fst answer)), (snd (fst answer)). split; [reflexivity|].
  rewrite get_chat_run, Hs', Hf'. cbn [fst snd negb andb]. f_equal.
  unfold history_of. rewrite save_message_db. cbn [messages_table].
  assert (db (snd answer) = db st2) as -> by apply respond_keeps_db.
  unfold st2. rewrite save_message_db. cbn [messages_table chats_table].
  unfold saved.
  rewrite (known_chat_chats id st (snd answer))
    by (unfold answer; rewrite respond_keeps_db; unfold st2;
        rewrite save_message_db; reflexivity).
  rewrite Hs, Hf1, Hf2, Hin. cbn [negb andb].
  rewrite <- app_assoc, filter_app. cbn [app filter row_chat_id].
  now rewrite String.eqb_refl.
Qed.

Lemma posted_messages_are_read_back_witness :
  exists reply use,
    fst (post_chat stored_world follow_up_body one_chat_store)
    = ChatReply "7b0c4f4e-8d1a-4a57-9f0e-2f6f3a1f9c11" reply use /\
    fst (get_chat stored_world "7b0c4f4e-8d1a-4a57-9f0e-2f6f3a1f9c11"
           (snd (post_chat stored_world follow_up_body one_chat_store)))
    = MessageList
        (history_of "7b0c4f4e-8d1a-4a57-9f0e-2f6f3a1f9c11" one_chat_store
         ++ [user_row "7b0c4f4e-8d1a-4a57-9f0e-2f6f3a1f9c11" "And then?";
             assistant_row "7b0c4f4e-8d1a-4a57-9f0e-2f6f3a1f9c11" reply]).
Proof.
  apply (posted_messages_are_read_back stored_world stored_world follow_up_body
           one_chat_store "7b0c4f4e-8d1a-4a57-9f0e-2f6f3a1f9c11" "And then?");
    try reflexivity.
  left. reflexivity.
Defined.

Lemma saved_other_chat (w : world) (site : db_call) (id other : string) (st : store)
  (r : string) (c : string) :
  other <> id ->
  filter (fun row => String.eqb (row_chat_id row) other)
         (saved w site id st {| row_chat_id := id; row_role := r; row_content := c |})
  = [].
Proof.
  intro H. unfold saved.
  destruct (supabase w && negb (db_fault w site) && known_chat id st); [|reflexivity].
  cbn. apply not_eq_sym, String.eqb_neq in H. now rewrite H.
Qed.

(** X14: a POST /chat changes the messages of no other chat: what
    GET /chat/:id answers for any id other than the one in the reply is the
    same before and after; a request that is refused changes nothing at
    all. *)
Theorem other_chats_are_untouched
  (w w' : world) (body : chat_body) (st : store) (other : string) :
  match fst (post_chat w body st) with
  | ChatReply id _ _ =>
      other <> id ->
      fst (get_chat w' other (snd (post_chat w body st))) = fst (get_chat w' other st)
  | _ => snd (post_chat w body st) = st
  end.
Proof.
  destruct (present (message body)) eqn:Hm.
  - destruct (post_chat_db w body st Hm) as (reply & use & E & _ & Em).
    cbv zeta in E, Em. rewrite E. intro Hne.
    rewrite !get_chat_run. cbn [fst]. f_equal.
    destruct (supabase w' && negb (db_fault w' FetchMessages)); [|reflexivity].
    unfold history_of. rewrite Em, chat_session_messages, !filter_app.
    rewrite !saved_other_chat by exact Hne. now rewrite !app_nil_r.
  - unfold post_chat. rewrite Hm. reflexivity.
Qed.

(** X15: in the standard flow on a working database the model is sent the
    stored history of the chat followed by the message just posted, under
    the system message of the chosen depth, in one streamed call. *)
Theorem model_sees_history_then_message
  (w : world) (body : chat_body) (st : store) (id text : string) :
  chat_id body = Some id -> nonempty id = true ->
  In id (chats_table (db st)) ->
  message body = Some text -> nonempty text = true ->
  webSearch body = false ->
  supabase w = true ->
  db_fault w InsertUserMessage = false ->
  db_fault w LoadHistory = false ->
  present (HF_API_KEY w) = true ->
  calls (snd (post_chat w body st))
  = (calls st
     ++ [Streams
           {| model := HF_MODEL w;
              messages :=
                {| role := "system";
                   content := SANYAI_SYSTEM ++ depthInstruction (chosen_depth body) |}
                :: formatted (turns (history_of id st
                                     ++ [user_row id text]));
              max_tokens := 2048;
              temperature := 7 # 10;
              stream := true;
              json_object := false |}])%list.
Proof.
  intros Hid Hne Hin Hmsg Htext Hweb Hs Hf1 Hf3 Hkey.
  rewrite (post_chat_named w body st id text Hid Hne Hmsg Htext). cbv zeta.
  cbn [snd]. rewrite save_message_calls, respond_run, Hweb. cbv zeta. cbn [snd calls].
  rewrite save_message_calls. unfold streamed. rewrite Hkey.
  rewrite load_context_run, Hs, Hf3. cbn [fst negb andb].
  rewrite save_message_db. cbn [messages_table]. unfold saved.
  apply known_chat_In in Hin. rewrite Hs, Hf1, Hin. cbn [negb andb].
  rewrite history_of_rows. cbn [filter row_chat_id]. rewrite String.eqb_refl.
  reflexivity.
Qed.

Lemma model_sees_history_then_message_witness :
  calls (snd (post_chat stored_world follow_up_body one_chat_store))
  = [Streams
       (generate_request stored_world
          [ {| role := "user"; content := "Hi" |};
            {| role := "assistant"; content := "Hello there" |};
            {| role := "user"; content := "And then?" |} ]
          "Concise")].
Proof.
  apply (model_sees_history_then_message stored_world follow_up_body one_chat_store
           "7b0c4f4e-8d1a-4a57-9f0e-2f6f3a1f9c11" "And then?");
    try reflexivity.
  left. reflexivity.
Defined.

Lemma get_chats_run (w : world) (st : store) :
  get_chats w st
  = (ChatList (if supabase w && negb (db_fault w ListChats)
               then firstn 20 (rev (chats_table (db st))) else []),
     st).
Proof.
  unfold get_chats, select_chats, bind, read_db, ret.
  destruct (supabase w); cbn [negb andb]; [|reflexivity].
  destruct (db_fault w ListChats); reflexivity.
Qed.

Lemma firstn_incl {A : Type} (n : nat) (l : list A) : incl (firstn n l) l.
Proof.
  revert n. induction l as [|a l IH]; intros [|n]; cbn;
    try apply incl_nil_l.
  intros x [<-|H]; [now left | right; exact (IH n x H)].
Qed.

Lemma firstn_NoDup {A : Type} (n : nat) (l : list A) : NoDup l -> NoDup (firstn n l).
Proof.
  intro H. rewrite <- (firstn_skipn n l) in H. now apply NoDup_app_remove_r in H.
Qed.

(** X16: GET /chats lists at most twenty chats, each of them a stored chat,
    none twice when ids are unique, the most recently created first; it
    never fails and changes nothing. *)
Theorem chats_listing (w : world) (st : store) :
  snd (get_chats w st) = st /\
  exists ids,
    fst (get_chats w st) = ChatList ids /\
    (List.length ids <= 20)%nat /\
    incl ids (chats_table (db st)) /\
    (NoDup (chats_table (db st)) -> NoDup ids) /\
    (forall older newest,
        chats_table (db st) = (older ++ [newest])%list ->
        supabase w = true -> db_fault w ListChats = false ->
        hd_error ids = Some newest).
Proof.
  rewrite get_chats_run. split; [reflexivity|]. cbn [fst]. eexists. split; [reflexivity|].
  destruct (supabase w && negb (db_fault w ListChats)) eqn:E.
  - split; [apply firstn_le_length|]. split; [|split].
    + intros x Hx. apply firstn_incl in Hx. now apply in_rev.
    + intro Hn. now apply firstn_NoDup, NoDup_rev.
    + intros older newest -> _ _. now rewrite rev_unit.
  - split; [cbn; lia|]. split; [apply incl_nil_l|]. split; [constructor|].
    intros older newest _ Hs Hf. rewrite Hs, Hf in E. discriminate E.
Qed.

(** X17: a chat that POST /chat creates is the first one GET /chats lists
    afterwards, followed by the chats listed before. *)
Theorem new_chat_is_listed_first
  (w w' : world) (body : chat_body) (st : store) :
  present (message body) = true ->
  present (chat_id body) = false ->
  supabase w = true -> db_fault w CreateChat = false ->
  ~ In (uuid_generate_v4 w) (chats_table (db st)) ->
  supabase w' = true -> db_fault w' ListChats = false ->
  exists reply use,
    fst (post_chat w body st) = ChatReply (uuid_generate_v4 w) reply use /\
    fst (get_chats w' (snd (post_chat w body st)))
    = ChatList (uuid_generate_v4 w :: firstn 19 (rev (chats_table (db st)))).
Proof.
  intros Hm Hc Hs Hf Hfresh Hs' Hf'.
  destruct (post_chat_db w body st Hm) as (reply & use & E & Ec & _).
  cbv zeta in E, Ec.
  assert (known_chat (uuid_generate_v4 w) st = false) as K.
  { destruct (known_chat (uuid_generate_v4 w) st) eqn:K; [|reflexivity].
    apply known_chat_In in K. contradiction. }
  rewrite chat_session_run, Hc, Hs, Hf, K in E, Ec. cbn [negb andb fst snd] in E, Ec.
  exists reply, use. split; [exact E|].
  rewrite get_chats_run, Hs', Hf'. cbn [fst negb andb].
  rewrite Ec. cbn [with_chat db chats_table]. now rewrite rev_unit.
Qed.

Lemma new_chat_is_listed_first_witness :
  exists reply use,
    fst (post_chat stored_world first_body empty_store)
    = ChatReply "7b0c4f4e-8d1a-4a57-9f0e-2f6f3a1f9c11" reply use /\
    fst (get_chats stored_world (snd (post_chat stored_world first_body empty_store)))
    = ChatList ["7b0c4f4e-8d1a-4a57-9f0e-2f6f3a1f9c11"].
Proof.
  apply (new_chat_is_listed_first stored_world stored_world first_body empty_store);
    try reflexivity.
  intros [].
Defined.

Lemma no_history_of_unknown_chat (id : string) (st : store) :
  schema_holds (db st) -> ~ In id (chats_table (db st)) -> history_of id st = [].
Proof.
  intros [_ Hr] Hid. unfold history_of.
  induction (messages_table (db st)) as [|r rows IH]; cbn; [reflexivity|].
  destruct (String.eqb (row_chat_id r) id) eqn:E.
  - apply String.eqb_eq in E. subst id. exfalso. apply Hid, Hr. now left.
  - apply IH. intros r' H. apply Hr. now right.
Qed.

Lemma database_eta (d d' : database) :
  chats_table d' = chats_table d -> messages_table d' = messages_table d -> d' = d.
Proof. destruct d, d'. cbn. now intros -> ->. Qed.

(** X18: a message posted under a chat id that names no stored chat is
    answered under that id but leaves no trace in the database; and when the
    history can be read, the standard flow then calls the model with the
    system message alone, without the message that was posted. *)
Theorem unknown_chat_is_answered_not_stored
  (w : world) (body : chat_body) (st : store) (id text : string) :
  chat_id body = Some id -> nonempty id = true ->
  message body = Some text -> nonempty text = true ->
  schema_holds (db st) ->
  ~ In id (chats_table (db st)) ->
  (exists reply use, fst (post_chat w body st) = ChatReply id reply use) /\
  db (snd (post_chat w body st)) = db st /\
  (webSearch body = false -> supabase w = true -> db_fault w LoadHistory = false ->
   present (HF_API_KEY w) = true ->
   calls (snd (post_chat w body st))
   = (calls st ++ [Streams (generate_request w [] (chosen_depth body))])%list).
Proof.
  intros Hid Hne Hmsg Htext Hschema Hunknown.
  assert (known_chat id st = false) as K.
  { destruct (known_chat id st) eqn:K; [|reflexivity].
    apply known_chat_In in K. contradiction. }
  assert (forall site r c, save_message w site id r c st = (tt, st)) as Hsave.
  { intros. rewrite save_message_run, K, andb_false_r. reflexivity. }
  rewrite (post_chat_named w body st id text Hid Hne Hmsg Htext). cbv zeta.
  rewrite Hsave. cbn [fst snd].
  set (answer := respond w body text _ st).
  assert (db (snd answer) = db st) as Hdb by apply respond_keeps_db.
  split; [eauto|]. split.
  - rewrite save_message_db. unfold saved.
    rewrite (known_chat_chats id st (snd answer)) by now rewrite Hdb.
    rewrite K, andb_false_r, app_nil_r. cbn. rewrite Hdb. now destruct (db st).
  - intros Hweb Hs Hf Hkey. rewrite save_message_calls. unfold answer.
    rewrite respond_run, Hweb. cbv zeta. cbn [snd calls].
    unfold streamed. rewrite Hkey.
    rewrite load_context_run, Hs, Hf. cbn [fst negb andb].
    change (filter _ (messages_table (db st))) with (history_of id st).
    now rewrite (no_history_of_unknown_chat id st Hschema Hunknown).
Qed.

Lemma unknown_chat_is_answered_not_stored_witness :
  db (snd (post_chat stored_world stray_body one_chat_store)) = db one_chat_store /\
  calls (snd (post_chat stored_world stray_body one_chat_store))
  = [Streams (generate_request stored_world [] "Short")].
Proof.
  destruct (unknown_chat_is_answered_not_stored stored_world stray_body one_chat_store
              "00000000-0000-4000-8000-000000000000" "Anyone there?"
              eq_refl eq_refl eq_refl eq_refl) as (_ & Hdb & Hcalls).
  - split.
    + repeat constructor. intros [].
    + intros r [<-|[<-|[]]]; left; reflexivity.
  - intros [H|[]]. discriminate H.
  - split; [exact Hdb | now apply Hcalls].
Defined.

(** ** Replies and usage *)

Lemma nonempty_app_l (a b : string) : nonempty a = true -> nonempty (a ++ b) = true.
Proof. destruct a; [discriminate | reflexivity]. Qed.

Lemma stream_reply_nonempty (answer : stream_outcome) :
  nonempty (stream_reply answer) = true.
Proof.
  unfold stream_reply. destruct (failure answer); [reflexivity|].
  destruct (nonempty (collect (chunks answer))) eqn:E; [exact E | reflexivity].
Qed.

Lemma web_answer_nonempty (answer : completion_outcome) (sources : list source) :
  nonempty (fst (web_answer answer sources)) = true.
Proof.
  destruct answer as [|c u]; [reflexivity|]. cbn [web_answer fst].
  assert (nonempty (if present c then show c else "Failed to generate response.") = true)
    as H.
  { destruct c as [s|]; cbn; [|reflexivity]. destruct (nonempty s) eqn:E; auto. }
  destruct (0 <? List.length sources)%nat; [|exact H].
  rewrite append_sources_numbered, string_app_assoc. now apply nonempty_app_l.
Qed.

(** X19: POST /chat answers 400 "Message is required", leaving the store
    as it was, exactly when the message is missing or empty; every other
    request is answered with a chat reply whose [response] is never empty:
    whatever the models return, also nothing at all, the reply carries some
    text. *)
Theorem chat_reply_is_never_empty (w : world) (body : chat_body) (st : store) :
  (if present (message body)
   then exists id reply use,
          fst (post_chat w body st) = ChatReply id reply use /\
          nonempty reply = true
   else post_chat w body st = (BadRequest "Message is required", st)) /\
  (fst (post_chat w body st) = BadRequest "Message is required"
   <-> present (message body) = false) /\
  match fst (post_chat w body st) with
  | ChatReply _ reply _ => nonempty reply = true
  | BadRequest err => err = "Message is required" /\ present (message body) = false
  | _ => False
  end.
Proof.
  destruct (present (message body)) eqn:Hm.
  - destruct (post_chat_reply w body st Hm) as (id & conv & st3 & _ & E & _).
    assert (nonempty (fst (fst (respond w body (show (message body)) conv st3))) = true)
      as Hne.
    { rewrite respond_run. destruct (webSearch body); cbv zeta; cbn [fst].
      - apply web_answer_nonempty.
      - destruct (present (HF_API_KEY w)); [apply stream_reply_nonempty | reflexivity]. }
    rewrite E. split; [|split].
    + eexists _, _, _. split; [reflexivity | exact Hne].
    + split; discriminate.
    + exact Hne.
  - unfold post_chat. rewrite Hm. cbn. repeat split; auto.
Qed.

Lemma countTokens_nonneg (w : world) (text : string) : 0 <= countTokens w text.
Proof.
  unfold countTokens. destruct (encode w text); [lia|].
  apply Z.div_pos; lia.
Qed.

Lemma sum_tokens_spec (w : world) (l : list chat_message) :
  forall acc,
    fold_left (fun acc msg => acc + countTokens w (content msg)) l acc
    = acc + token_sum w (map content l).
Proof.
  induction l as [|m l IH]; intro acc; cbn [fold_left map token_sum fold_right].
  - lia.
  - rewrite IH. unfold token_sum. lia.
Qed.

Lemma formatted_content (history : list chat_message) :
  map content (formatted history) = map content history.
Proof. unfold formatted. rewrite map_map. reflexivity. Qed.

Lemma input_tokens_of_sum (w : world) (history : list chat_message) :
  input_tokens_of w history = token_sum w (map content history).
Proof.
  unfold input_tokens_of. rewrite sum_tokens_spec, formatted_content. lia.
Qed.

Lemma token_sum_nonneg (w : world) (texts : list string) : 0 <= token_sum w texts.
Proof.
  induction texts as [|t texts IH]; cbn [token_sum fold_right]; [lia|].
  pose proof (countTokens_nonneg w t). unfold token_sum in IH. lia.
Qed.

(** X20: in the standard flow the usage of the answer is counted by the
    server: [output_tokens] is the token count of the reply, and
    [input_tokens] is the sum of the token counts of the conversation, one
    count per message, the system message not counted.  The conversation is
    the one the model is sent: with a database that answers, the rows
    stored for the chat followed by the posted message when its insert went
    through; otherwise the posted message alone.  Neither count is
    negative. *)
Theorem standard_flow_counts_tokens
  (w : world) (body : chat_body) (st : store) (text : string) :
  message body = Some text -> nonempty text = true ->
  webSearch body = false ->
  exists id reply conversation,
    fst (post_chat w body st)
    = ChatReply id reply
        (Counted (token_sum w (map content conversation)) (countTokens w reply)) /\
    conversation
    = (if supabase w && negb (db_fault w LoadHistory)
       then turns (history_of id st
                   ++ if supabase w && negb (db_fault w InsertUserMessage)
                         && known_chat id (snd (post_chat w body st))
                      then [user_row id text] else [])
       else [ {| role := "user"; content := text |} ]) /\
    calls (snd (post_chat w body st))
    = (calls st ++ if present (HF_API_KEY w)
                   then [Streams (generate_request w (formatted conversation)
                                                   (chosen_depth body))]
                   else [])%list /\
    0 <= token_sum w (map content conversation) /\
    0 <= countTokens w reply /\
    (supabase w = false ->
     token_sum w (map content conversation) = countTokens w text).
Proof.
  intros Hmsg Htext Hweb.
  assert (present (message body) = true) as Hm by (rewrite Hmsg; exact Htext).
  destruct (post_chat_db w body st Hm) as (reply0 & use0 & _ & Ec & _).
  cbv zeta in Ec.
  assert (forall id, known_chat id (snd (post_chat w body st))
                     = known_chat id (snd (chat_session w (chat_id body) st))) as Hk
    by (intro id; unfold known_chat; now rewrite Ec).
  rewrite (post_chat_steps w body st Hm) in *. cbv zeta in *. cbn [fst snd] in *.
  rewrite Hmsg in *. cbn [show] in *.
  set (s1 := chat_session w (chat_id body) st) in *.
  set (s2 := save_message w InsertUserMessage (fst s1) "user" text (snd s1)) in *.
  set (conversation := fst (load_context w (fst s1) text (snd s2))).
  exists (fst s1), (fst (fst (respond w body text conversation
                                (snd (load_context w (fst s1) text (snd s2)))))),
         conversation.
  assert (conversation
          = (if supabase w && negb (db_fault w LoadHistory)
             then turns (history_of (fst s1) st
                         ++ if supabase w && negb (db_fault w InsertUserMessage)
                               && known_chat (fst s1) (snd s1)
                            then [user_row (fst s1) text] else [])
             else [ {| role := "user"; content := text |} ])) as Econv.
  { unfold conversation. rewrite load_context_run. cbn [fst].
    destruct (supabase w && negb (db_fault w LoadHistory)); [|reflexivity].
    unfold s2. rewrite save_message_db. cbn [messages_table].
    unfold turns. f_equal. rewrite filter_app. unfold s1 at 2.
    rewrite chat_session_messages. unfold history_of. f_equal.
    unfold saved, user_row.
    destruct (supabase w && negb (db_fault w InsertUserMessage)
              && known_chat (fst s1) (snd s1)); [|reflexivity].
    cbn [filter row_chat_id]. now rewrite String.eqb_refl. }
  rewrite Hk, <- Econv.
  rewrite respond_run, Hweb. cbv zeta. cbn [fst snd calls].
  rewrite save_message_calls. cbn [calls].
  rewrite input_tokens_of_sum.
  split; [reflexivity|]. split; [reflexivity|].
  split.
  { rewrite load_context_run. cbn [snd]. unfold s2. rewrite save_message_calls.
    unfold s1. rewrite chat_session_calls. reflexivity. }
  split; [apply token_sum_nonneg|]. split; [apply countTokens_nonneg|].
  intro Hs. rewrite Econv, Hs. cbn. lia.
Qed.

Lemma standard_flow_counts_tokens_witness :
  exists id reply conversation,
    fst (post_chat stored_world follow_up_body one_chat_store)
    = ChatReply id reply
        (Counted (token_sum stored_world (map content conversation))
                 (countTokens stored_world reply)) /\
    conversation
    = (if supabase stored_world && negb (db_fault stored_world LoadHistory)
       then turns (history_of id one_chat_store
                   ++ if supabase stored_world
                         && negb (db_fault stored_world InsertUserMessage)
                         && known_chat id
                              (snd (post_chat stored_world follow_up_body one_chat_store))
                      then [user_row id "And then?"] else [])
       else [ {| role := "user"; content := "And then?" |} ]) /\
    calls (snd (post_chat stored_world follow_up_body one_chat_store))
    = (calls one_chat_store
       ++ if present (HF_API_KEY stored_world)
          then [Streams (generate_request stored_world (formatted conversation)
                                          (chosen_depth follow_up_body))]
          else [])%list /\
    0 <= token_sum stored_world (map content conversation) /\
    0 <= countTokens stored_world reply /\
    (supabase stored_world = false ->
     token_sum stored_world (map content conversation)
     = countTokens stored_world "And then?").
Proof.
  apply (standard_flow_counts_tokens stored_world follow_up_body one_chat_store
           "And then?");
    reflexivity.
Defined.

(** X21: in the standard flow POST /chat calls neither the search service
    nor the synthesis model: it makes at most one call, a streamed one to the
    configured chat model with a ceiling of 2048 tokens, and none without an
    access token or for a request it refuses. *)
Theorem standard_flow_calls (w : world) (body : chat_body) (st : store) :
  webSearch body = false ->
  exists made,
    calls (snd (post_chat w body st)) = (calls st ++ made)%list /\
    (List.length made <= 1)%nat /\
    forall e, In e made ->
      present (HF_API_KEY w) = true /\ present (message body) = true /\
      exists req,
        e = Streams req /\ model req = HF_MODEL w /\ stream req = true /\
        max_tokens req = 2048.
Proof.
  intro Hweb. destruct (present (message body)) eqn:Hm.
  - destruct (post_chat_reply w body st Hm) as (id & conv & st3 & E3 & _ & ->).
    rewrite respond_run, Hweb. cbv zeta. cbn [snd calls]. rewrite E3.
    eexists. split; [reflexivity|]. unfold streamed.
    destruct (present (HF_API_KEY w)).
    + split; [cbn; lia|]. intros e [<-|[]]. repeat split. eexists. repeat split.
    + split; [cbn; lia|]. intros e [].
  - exists []. unfold post_chat. rewrite Hm. cbn. rewrite app_nil_r.
    split; [reflexivity|]. split; [lia|]. intros e [].
Qed.

Lemma standard_flow_calls_witness :
  exists made,
    calls (snd (post_chat stored_world first_body empty_store))
    = (calls empty_store ++ made)%list /\
    (List.length made <= 1)%nat /\
    forall e, In e made ->
      present (HF_API_KEY stored_world) = true /\
      present (message first_body) = true /\
      exists req,
        e = Streams req /\ model req = HF_MODEL stored_world /\ stream req = true /\
        max_tokens req = 2048.
Proof. apply (standard_flow_calls stored_world first_body empty_store). reflexivity. Defined.

(** X22: in the web search flow POST /chat asks the synthesis model exactly
    once, after the search if there is a key; what it sends is made of the
    posted message, the search results and the depth only, so the stored
    conversation is not part of it. *)
Theorem web_flow_calls (w : world) (body : chat_body) (st : store) (text : string) :
  message body = Some text -> nonempty text = true ->
  webSearch body = true ->
  calls (snd (post_chat w body st))
  = (calls st
     ++ (if present (SERP_API_KEY w) then [Searches text] else [])
     ++ [Completes (kimi_request w text (chosen_depth body))])%list /\
  model (kimi_request w text (chosen_depth body)) = KIMI_MODEL /\
  max_tokens (kimi_request w text (chosen_depth body)) = 2048 /\
  stream (kimi_request w text (chosen_depth body)) = false /\
  List.length (messages (kimi_request w text (chosen_depth body))) = 2%nat.
Proof.
  intros Hmsg Htext Hweb.
  assert (present (message body) = true) as Hm by (rewrite Hmsg; exact Htext).
  destruct (post_chat_reply w body st Hm) as (id & conv & st3 & E3 & _ & ->).
  rewrite respond_run, Hweb, Hmsg. cbn [snd calls show]. rewrite E3.
  repeat split.
Qed.

Lemma web_flow_calls_witness :
  calls (snd (post_chat kimi_up_world web_body one_chat_store))
  = [Searches super_bowl; Completes (kimi_request kimi_up_world super_bowl "Short")].
Proof.
  apply (web_flow_calls kimi_up_world web_body one_chat_store super_bowl); reflexivity.
Defined.

(** X23: a POST /chat without [depth], or with the empty string, is handled
    exactly as one that asks for the depth Short. *)
Theorem missing_depth_is_short (w : world) (body : chat_body) (st : store) :
  present (depth body) = false ->
  post_chat w body st
  = post_chat w {| chat_id := chat_id body; message := message body;
                   depth := Some "Short"; webSearch := webSearch body |} st.
Proof.
  intro H. unfold post_chat. cbn [chat_id message depth webSearch present show nonempty].
  now rewrite H.
Qed.

Lemma missing_depth_is_short_witness :
  post_chat kimi_up_world web_body empty_store
  = post_chat kimi_up_world
      {| chat_id := None; message := Some super_bowl; depth := Some "Short";
         webSearch := true |} empty_store.
Proof. apply (missing_depth_is_short kimi_up_world web_body empty_store). reflexivity. Defined.

(** ** The streamed reply *)

Lemma collect_from (chunks : list (option string)) :
  forall out,
    fold_left (fun out chunk => if present chunk then out ++ show chunk else out)
              chunks out
    = (out ++ String.concat "" (compact chunks))%string.
Proof.
  induction chunks as [|c chunks IH]; intro out; cbn [fold_left compact].
  - cbn. now rewrite string_app_nil_r.
  - destruct (present c); [|apply IH].
    rewrite IH, string_app_assoc. f_equal.
    destruct (compact chunks); cbn; [now rewrite string_app_nil_r | reflexivity].
Qed.

(** X24: the reply of [generateResponse] is the text of the chunks that
    carry some, joined in order of arrival, or an apology when there is
    none; a stream that ends in an error gives the error message instead,
    and the text received before the error is dropped. *)
Theorem streamed_reply
  (w : world) (prompt : list chat_message) (depth : option string) (st : store) :
  present (HF_API_KEY w) = true ->
  let answer := create_stream w (generate_request w prompt (default_to "Short" depth)) in
  let text := String.concat "" (compact (chunks answer)) in
  fst (generateResponse w prompt depth st)
  = match failure answer with
    | Some message =>
        "Error calling AI Model: " ++ message
          ++ ". Please check your API key and connection."
    | None => if nonempty text then text else EMPTY_REPLY
    end.
Proof.
  intros Hkey answer text. rewrite generateResponse_run, Hkey. cbn [fst].
  fold answer. unfold stream_reply, collect. rewrite collect_from. cbn [append].
  reflexivity.
Qed.

Lemma streamed_reply_witness :
  fst (generateResponse broken_stream_world [ {| role := "user"; content := "Hi" |} ]
         None empty_store)
  = "Error calling AI Model: socket hang up. Please check your API key and connection.".
Proof.
  apply (streamed_reply broken_stream_world [ {| role := "user"; content := "Hi" |} ]
           None empty_store).
  reflexivity.
Defined.

(** ** Malformed search answers *)

(** X25: a member of the search answer that is set but is not an array makes
    the helper answer null wherever it is read: organic results always,
    references when there is no organic result, text blocks when fewer than
    three sources were found; text blocks that are not an array are harmless
    once three organic results are known. *)
Theorem malformed_members_give_null (data : serp_data) :
  (organic_results data = NotArray -> read_results data = None) /\
  (references data = NotArray ->
   organic_results data = Absent \/ organic_results data = Items [] ->
   read_results data = None) /\
  (text_blocks data = NotArray ->
   forall s1 s2,
     organic_sources data = Some s1 -> with_references data s1 = Some s2 ->
     if (List.length s2 <? 3)%nat then read_results data = None
     else present (error data) = false ->
          exists r, read_results data = Some r /\ sources r = s2).
Proof.
  unfold read_results. split; [|split].
  - intro H. destruct (present (error data)); [reflexivity|].
    unfold organic_sources. rewrite H.
    destruct (extract_chunks data); reflexivity.
  - intros H Ho. destruct (present (error data)); [reflexivity|].
    destruct (extract_chunks data) as [chunks|]; cbn [and_then]; [|reflexivity].
    unfold organic_sources, with_references.
    destruct Ho as [-> | ->]; cbn [and_then firstn map List.length Nat.eqb andb];
      rewrite H; reflexivity.
  - intros H s1 s2 H1 H2.
    assert (extract_chunks data = Some (snippets data)
            \/ extract_chunks data = None) as Hc.
    { unfold extract_chunks, snippets. rewrite H. cbn [List.length Nat.eqb andb].
      destruct (organic_results data); cbn [is_set]; auto. }
    destruct (List.length s2 <? 3)%nat eqn:L.
    + destruct (present (error data)); [reflexivity|].
      destruct Hc as [-> | ->]; cbn [and_then]; [|reflexivity].
      rewrite H1. cbn [and_then]. rewrite H2. cbn [and_then].
      unfold with_block_sources. rewrite L, H. reflexivity.
    + intros ->. destruct Hc as [Hc | Hc].
      * rewrite Hc. cbn [and_then]. rewrite H1. cbn [and_then]. rewrite H2.
        cbn [and_then]. unfold with_block_sources. rewrite L. cbn [andb and_then].
        eexists. split; reflexivity.
      * exfalso. unfold extract_chunks in Hc. rewrite H in Hc.
        cbn [List.length Nat.eqb andb] in Hc.
        unfold organic_sources in H1.
        destruct (organic_results data); cbn [is_set] in Hc; discriminate.
Qed.

Lemma malformed_members_give_null_witness : read_results malformed_answer = None.
Proof.
  apply (proj1 (malformed_members_give_null malformed_answer)). reflexivity.
Defined.
